(** * Shallow embedding of [scripts/formatter.py] (document-format-skills)

    Python [str] values are sequences of Unicode code points; they are
    modelled as [list Z].  Literals in this file are written as UTF-8
    Rocq strings and decoded with [u].  The regular expressions of the
    source are transcribed into a small backtracking matcher whose
    [rmatch] / [rsearch] agree with Python's [re.match] / [re.search]
    being [not None]. *)

From Stdlib Require Import String Ascii ZArith List Bool Lia QArith Qpower Lqa.
Import ListNotations.
Open Scope Z_scope.

(** ** Text *)

Definition text := list Z.

(** UTF-8 decoding of a Rocq string literal into code points. *)
Fixpoint u (s : string) : text :=
  match s with
  | EmptyString => []
  | String a rest =>
      let b0 := Z.of_nat (nat_of_ascii a) in
      if b0 <? 128 then b0 :: u rest
      else match rest with
           | String b rest2 =>
               let b1 := Z.land (Z.of_nat (nat_of_ascii b)) 63 in
               if b0 <? 224 then (Z.land b0 31 * 64 + b1) :: u rest2
               else match rest2 with
                    | String c rest3 =>
                        (Z.land b0 15 * 4096 + b1 * 64
                         + Z.land (Z.of_nat (nat_of_ascii c)) 63) :: u rest3
                    | EmptyString => [b0]
                    end
           | EmptyString => [b0]
           end
  end.

Definition mem (c : Z) (cs : text) : bool := existsb (Z.eqb c) cs.

(** Python's [str.isspace] (and the [\s] class of [re] on [str]). *)
Definition is_space (c : Z) : bool :=
  ((9 <=? c) && (c <=? 13)) || ((28 <=? c) && (c <=? 32)) || (c =? 133)
  || (c =? 160) || (c =? 5760) || ((8192 <=? c) && (c <=? 8202))
  || (c =? 8232) || (c =? 8233) || (c =? 8239) || (c =? 8287) || (c =? 12288).

(** The [\d] class of [re] on [str]: Unicode decimal digits (category Nd),
    given as the first code point of each block of ten. *)
Definition nd_starts : list Z :=
  [48; 1632; 1776; 1984; 2406; 2534; 2662; 2790; 2918; 3046; 3174; 3302;
   3430; 3558; 3664; 3792; 3872; 4160; 4240; 6112; 6160; 6470; 6608; 6784;
   6800; 6992; 7088; 7232; 7248; 42528; 43216; 43264; 43472; 43504; 43600;
   44016; 65296; 66720; 68912; 69734; 69872; 69942; 70096; 70384; 70736;
   70864; 71248; 71360; 71472; 71904; 72016; 72784; 73040; 73120; 92768;
   92864; 93008; 120782; 120792; 120802; 120812; 120822; 123200; 123632;
   125264; 130032].

Definition is_digit (c : Z) : bool :=
  existsb (fun s => (s <=? c) && (c <? s + 10)) nd_starts.

Fixpoint lstrip (t : text) : text :=
  match t with
  | c :: t' => if is_space c then lstrip t' else t
  | [] => []
  end.

(** [str.strip()] *)
Definition strip (t : text) : text := rev (lstrip (rev (lstrip t))).

Fixpoint prefixb (p t : text) : bool :=
  match p, t with
  | [], _ => true
  | a :: p', b :: t' => (a =? b) && prefixb p' t'
  | _ :: _, [] => false
  end.

(** [needle in haystack] for strings. *)
Fixpoint contains (h n : text) : bool :=
  prefixb n h || match h with [] => false | _ :: h' => contains h' n end.

(** [str.replace(a, b)] for one-character [a] and [b] (b possibly empty). *)
Definition replace1 (a : Z) (b : text) (t : text) : text :=
  flat_map (fun c => if c =? a then b else [c]) t.

Definition text_eqb (a b : text) : bool :=
  (Nat.eqb (length a) (length b)) && forallb (fun p => fst p =? snd p) (combine a b).

(** ** Regular expressions *)

Inductive re : Type :=
| Cls (p : Z -> bool)                          (* one character of a class *)
| Cat (r1 r2 : re)
| Alt (r1 r2 : re)
| Rep (p : Z -> bool) (mn : nat) (mx : option nat)  (* [p{mn,mx}] *)
| Eol                                          (* [$] *)
| Eps.

Fixpoint rep (p : Z -> bool) (mn : nat) (mx : option nat) (s : text)
         (k : text -> bool) : bool :=
  (match s, mx with
   | _, Some O => false
   | c :: s', _ => p c && rep p (pred mn) (option_map pred mx) s' k
   | [], _ => false
   end) || (Nat.eqb mn 0 && k s).

Fixpoint mt (r : re) (s : text) (k : text -> bool) : bool :=
  match r with
  | Cls p => match s with c :: s' => p c && k s' | [] => false end
  | Cat r1 r2 => mt r1 s (fun s' => mt r2 s' k)
  | Alt r1 r2 => mt r1 s k || mt r2 s k
  | Rep p mn mx => rep p mn mx s k
  | Eol => match s with [] | [10] => k s | _ => false end
  | Eps => k s
  end.

(** [re.match(r, s) is not None] *)
Definition rmatch (r : re) (s : text) : bool := mt r s (fun _ => true).

(** [re.search(r, s) is not None] *)
Fixpoint rsearch (r : re) (s : text) : bool :=
  rmatch r s || match s with [] => false | _ :: s' => rsearch r s' end.

(** Building blocks. *)
Definition ch (c : Z) : re := Cls (Z.eqb c).
Definition lit (s : string) : re := fold_right (fun c r => Cat (ch c) r) Eps (u s).
Definition oneof (s : string) : Z -> bool := fun c => mem c (u s).
Definition lit_t (t : text) : re := fold_right (fun c r => Cat (ch c) r) Eps t.
(** Split a decoded text at every ['|']. *)
Fixpoint split_bar (t : text) : list text :=
  match t with
  | [] => [[]]
  | c :: t' => let rest := split_bar t' in
               if c =? 124 then [] :: rest
               else match rest with w :: ws => (c :: w) :: ws | [] => [[c]] end
  end.
Fixpoint alts_t (l : list text) : re :=
  match l with [] => Cls (fun _ => false) | [w] => lit_t w | w :: l' => Alt (lit_t w) (alts_t l') end.
(** A group of literal alternatives [(a|b|...)], written as in the source. *)
Definition alts (s : string) : re := alts_t (split_bar (u s)).
Definition any_nonl (c : Z) : bool := negb (c =? 10).
Definition plus (p : Z -> bool) : re := Rep p 1 None.
Definition star (p : Z -> bool) : re := Rep p 0 None.
Definition opt (p : Z -> bool) : re := Rep p 0 (Some 1%nat).
Definition bnd (p : Z -> bool) (a b : nat) : re := Rep p a (Some b).
Fixpoint cats (l : list re) : re :=
  match l with [] => Eps | [r] => r | r :: l' => Cat r (cats l') end.

(** ** Table cells (format_document, step 4) *)

(** [r'^[-+]?\\d+(?:\\.\\d+)?%?$'] as written in the source: inside a raw
    string [\\] is an escaped backslash, so each [\\d] reads "a backslash,
    then the letter d" and [\\.] reads "a backslash, then any character". *)
Definition numeric_re : re :=
  cats [opt (oneof "-+"); ch 92; plus (Z.eqb 100);
        Alt (cats [ch 92; Cls any_nonl; ch 92; plus (Z.eqb 100)]) Eps;
        opt (Z.eqb 37); Eol].

Definition _is_numeric_text (t : text) : bool :=
  let t := strip (replace1 65285 [37] (replace1 44 [] t)) in
  match t with [] => false | _ => rmatch numeric_re t end.

(** Reference reading of the numeric-literal pattern as the spec words it
    (optional sign, digits, optional decimal part, optional percent sign),
    i.e. the source pattern with [\d] and [\.] single-escaped as in
    [detect_para_type]; used only for comparison with [numeric_re]. *)
Definition numeric_re_spec : re :=
  cats [opt (oneof "-+"); plus is_digit;
        Alt (cats [lit "."; plus is_digit]) Eps; opt (Z.eqb 37); Eol].

Definition _is_short_text (t : text) (max_len : nat) : bool :=
  let t := strip t in (0 <? length t)%nat && (length t <=? max_len)%nat.

Inductive Align := ALeft | ACenter | ARight | AJustify | ADistribute | AOtherAlign.

(** The alignment policy of the per-cell loop: [row_idx], [col_idx] as
    enumerated, [cell_text] the stripped concatenation of the cell's
    paragraph texts, [serial_col_idx] the detected serial column and
    [short_len] the configured [short_text_len]. *)
Definition cell_alignment (row_idx col_idx : nat) (cell_text : text)
           (serial_col_idx : option nat) (short_len : nat) : Align :=
  if Nat.eqb row_idx 0 then ACenter
  else if contains cell_text (u "合计") || contains cell_text (u "总计") then ACenter
  else if match serial_col_idx with Some s => Nat.eqb col_idx s | None => false end
       then ACenter
  else if _is_numeric_text cell_text then ARight
  else if _is_short_text cell_text short_len then ACenter
  else ALeft.


(** ** Paragraph classifier ([detect_para_type]) *)

Inductive Role :=
| title | recipient | heading1 | heading2 | heading3 | heading4
| body | signature | date | attachment | closing | empty.

Definition cn_num : Z -> bool := oneof "一二三四五六七八九十".
Definition sp : Z -> bool := is_space.
Definition nsp (c : Z) : bool := negb (is_space c).

(** [r'^[一二三四五六七八九十]+、'] *)
Definition h1_re : re := cats [plus cn_num; lit "、"].
(** [r'^（[一二三四五六七八九十]+）'] and [r'^\([一二三四五六七八九十]+\)'] *)
Definition h2_re_full : re := cats [lit "（"; plus cn_num; lit "）"].
Definition h2_re_half : re := cats [lit "("; plus cn_num; lit ")"].
(** [r'^\d+\.\s*\S'] *)
Definition h3_re : re := cats [plus is_digit; lit "."; star sp; Cls nsp].
(** [r'^（\d+）'] and [r'^\(\d+\)'] *)
Definition h4_re_full : re := cats [lit "（"; plus is_digit; lit "）"].
Definition h4_re_half : re := cats [lit "("; plus is_digit; lit ")"].
(** [r'^[一-鿿]+[：:]$'] *)
Definition recipient_re : re :=
  cats [plus (fun c => (19968 <=? c) && (c <=? 40959)); Cls (oneof "：:"); Eol].
(** [r'^附件[：:]\s*'], [r'^附件\d*[：:．.\s]'], [r'^附件$'] *)
Definition attach_re1 : re := cats [lit "附件"; Cls (oneof "：:"); star sp].
Definition attach_re2 : re :=
  cats [lit "附件"; star is_digit; Cls (fun c => oneof "：:．." c || sp c)].
Definition attach_re3 : re := cats [lit "附件"; Eol].

Definition closing_patterns : list re :=
  [ cats [lit "特此"; alts "说明|通知|报告|函复|函告|批复|公告|通报";
          opt (oneof "。"); Eol];
    cats [lit "此致"; Eol];
    cats [lit "敬礼"; opt (oneof "！!"); Eol];
    cats [lit "以上"; alts "报告|意见|方案"; bnd any_nonl 0 10; Eol];
    cats [lit "妥否"; bnd any_nonl 0 10; Eol];
    cats [lit "请"; bnd any_nonl 0 15; alts "批示|审批|审议|指示|核准";
          opt (oneof "。"); Eol] ].

Definition date_patterns : list re :=
  [ cats [bnd is_digit 4 4; lit "年"; bnd is_digit 1 2; lit "月"; bnd is_digit 1 2; lit "日"; Eol];
    cats [bnd is_digit 4 4; lit "."; bnd is_digit 1 2; lit "."; bnd is_digit 1 2; Eol];
    cats [bnd is_digit 4 4; lit "/"; bnd is_digit 1 2; lit "/"; bnd is_digit 1 2; Eol];
    cats [bnd is_digit 4 4; lit "-"; bnd is_digit 1 2; lit "-"; bnd is_digit 1 2; Eol];
    cats [lit "二"; Cls (oneof "○〇零oO0"); bnd (oneof "一二三四五六七八九零〇○oO0") 2 2;
          lit "年"; bnd any_nonl 1 3; lit "月"; bnd any_nonl 1 3; lit "日"; Eol] ].

(** [r'(公司|局|委|部|厅|院|所|中心|办公室|集团|银行|学校|大学|医院)$'], searched *)
Definition org_suffix_re : re :=
  Cat (alts "公司|局|委|部|厅|院|所|中心|办公室|集团|银行|学校|大学|医院") Eol.

Definition title_patterns : list re :=
  [ cats [lit "关于"; plus any_nonl; lit "的";
          alts "通知|报告|请示|函|意见|决定|公告|通报|批复|说明|方案|总结|汇报|复函|答复|建议"; Eol];
    cats [bnd any_nonl 2 30;
          alts "通知|报告|请示|函|意见|决定|公告|通报|批复|工作方案|工作总结|实施方案|管理办法|暂行规定"; Eol] ].

(** [r'[。！？，、；：]$'], searched *)
Definition final_punct_re : re := Cat (Cls (oneof "。！？，、；：")) Eol.
(** [r'^[一二三四五六七八九十\d（(]'] *)
Definition ordinal_start_re : re :=
  Cls (fun c => oneof "一二三四五六七八九十（(" c || is_digit c).

Definition any_match (ps : list re) (t : text) : bool := existsb (fun r => rmatch r t) ps.

(** [list.index] by value: position of the first element equal to [t]. *)
Fixpoint index_of (t : text) (l : list text) : option nat :=
  match l with
  | [] => None
  | x :: l' => if text_eqb x t then Some O
               else option_map S (index_of t l')
  end.

(** [all_texts[all_texts.index(text)+1:] if text in all_texts else []] *)
Definition remaining_texts (t : text) (all_texts : list text) : list text :=
  match index_of t all_texts with
  | Some i => skipn (S i) all_texts
  | None => []
  end.

Definition detect_para_type (text0 : text) (index total : Z) (alignment : option Align)
           (all_texts : list text) : Role :=
  let t := strip text0 in
  let len := Z.of_nat (length t) in
  match t with [] => empty | _ =>
  if rmatch h1_re t then heading1
  else if rmatch h2_re_full t then heading2
  else if rmatch h2_re_half t then heading2
  else if rmatch h3_re t && (len <? 60) then heading3
  else if rmatch h4_re_full t && (len <? 60) then heading4
  else if rmatch h4_re_half t && (len <? 60) then heading4
  else if rmatch recipient_re t && (len <? 20) then recipient
  else if rmatch attach_re1 t then attachment
  else if rmatch attach_re2 t then attachment
  else if rmatch attach_re3 t then attachment
  else if any_match closing_patterns t then closing
  else if any_match date_patterns t then date
  else if (total - 10 <=? index) && (len <? 30)
          && (rsearch org_suffix_re t
              || existsb (fun nt => any_match date_patterns (strip nt))
                         (firstn 3 (remaining_texts t all_texts)))
  then signature
  else if (index <? 5)
          && (any_match title_patterns t
              || ((15 <? len) && (len <? 80) && negb (rsearch final_punct_re t)
                  && negb (rmatch ordinal_start_re t))
              || (match alignment with Some ACenter => true | _ => false end
                  && (len <? 60)))
  then title
  else body
  end.


(** The ordered rule guards of [detect_para_type] on a stripped,
    non-empty text, as a decision table. *)
Definition earlier_rules (t : text) : list (bool * Role) :=
  let len := Z.of_nat (length t) in
  [ (rmatch h1_re t, heading1);
    (rmatch h2_re_full t, heading2);
    (rmatch h2_re_half t, heading2);
    (rmatch h3_re t && (len <? 60), heading3);
    (rmatch h4_re_full t && (len <? 60), heading4);
    (rmatch h4_re_half t && (len <? 60), heading4);
    (rmatch recipient_re t && (len <? 20), recipient);
    (rmatch attach_re1 t, attachment);
    (rmatch attach_re2 t, attachment);
    (rmatch attach_re3 t, attachment);
    (any_match closing_patterns t, closing);
    (any_match date_patterns t, date) ].

(** Rule 9: the signature guard. *)
Definition signature_cond (t : text) (index total : Z) (all_texts : list text) : bool :=
  (total - 10 <=? index) && (Z.of_nat (length t) <? 30)
  && (rsearch org_suffix_re t
      || existsb (fun nt => any_match date_patterns (strip nt))
                 (firstn 3 (remaining_texts t all_texts))).

(** Rule 10: the title guard. *)
Definition title_cond (t : text) (index : Z) (alignment : option Align) : bool :=
  let len := Z.of_nat (length t) in
  (index <? 5)
  && (any_match title_patterns t
      || ((15 <? len) && (len <? 80) && negb (rsearch final_punct_re t)
          && negb (rmatch ordinal_start_re t))
      || (match alignment with Some ACenter => true | _ => false end && (len <? 60))).

Definition decision_table (t : text) (index total : Z) (alignment : option Align)
           (all_texts : list text) : list (bool * Role) :=
  earlier_rules t ++ [(signature_cond t index total all_texts, signature);
                      (title_cond t index alignment, title)].

Definition earlier_rules_fire (t : text) : bool := existsb fst (earlier_rules t).

Definition all_roles : list Role :=
  [title; recipient; heading1; heading2; heading3; heading4;
   body; signature; date; attachment; closing; empty].

(** ** The driver's classification pass *)

Record Para := mkPara { p_text : text; p_align : option Align }.

Definition is_blank (t : text) : bool := match strip t with [] => true | _ => false end.

(** [all_texts = [p.text.strip() for p in doc.paragraphs if p.text.strip()]] *)
Definition all_texts_of (ps : list Para) : list text :=
  map (fun p => strip (p_text p)) (filter (fun p => negb (is_blank (p_text p))) ps).

(** The role given to each paragraph by the loop of step 3 ([None] for the
    paragraphs it skips as empty). *)
Fixpoint classify_from (i : nat) (ps : list Para) (total : Z) (all : list text)
  : list (option Role) :=
  match ps with
  | [] => []
  | p :: ps' =>
      (if is_blank (p_text p) then None
       else Some (detect_para_type (strip (p_text p)) (Z.of_nat i) total (p_align p) all))
      :: classify_from (S i) ps' total all
  end.

Definition classify_document (ps : list Para) : list (option Role) :=
  classify_from 0 ps (Z.of_nat (length ps)) (all_texts_of ps).

(** Number of non-empty paragraphs at position [i] or later. *)
Definition nonempty_from (ps : list Para) (i : nat) : nat :=
  length (filter (fun p => negb (is_blank (p_text p))) (skipn i ps)).

(** ** Heading splitter ([_split_heading_by_punct]) *)

(** [str.find(c)]: the first position of [c], or [-1]. *)
Fixpoint find (t : text) (c : Z) : Z :=
  match t with
  | [] => -1
  | x :: t' => if x =? c then 0 else let r := find t' c in if r =? -1 then -1 else r + 1
  end.

Definition heading_prefix_patterns : list re :=
  [h1_re; h2_re_full; h2_re_half; h3_re; h4_re_full; h4_re_half].

(** [punct_positions] for ['：'], [':'], ['。'] and their minimum. *)
Definition punct_positions (t : text) : list Z :=
  filter (fun pos => negb (pos =? -1)) (map (find t) [65306; 58; 12290]).

Definition split_index (t : text) : option Z :=
  match punct_positions t with
  | [] => None
  | p :: ps => Some (fold_left Z.min ps p)
  end.

(** Returns the rewritten paragraph and the inserted one, or [None] when
    the source returns [False] and leaves the paragraph alone.  Setting
    [paragraph.text] keeps the paragraph's properties; the new paragraph is
    a bare [w:p]. *)
Definition _split_heading_by_punct (p : Para) : option (Para * Para) :=
  let t := strip (p_text p) in
  match t with [] => None | _ =>
  if negb (any_match heading_prefix_patterns t) then None
  else match split_index t with
       | None => None
       | Some k =>
           let head := strip (firstn (Z.to_nat (k + 1)) t) in
           let tail := strip (skipn (Z.to_nat (k + 1)) t) in
           match tail with
           | [] => None
           | _ => Some (mkPara head (p_align p), mkPara tail None)
           end
       end
  end.

(** [for para in list(doc.paragraphs): _split_heading_by_punct(para)]:
    every original paragraph is visited once; inserted ones are not. *)
Definition split_headings (ps : list Para) : list Para :=
  flat_map (fun p => match _split_heading_by_punct p with
                     | Some (h, tl) => [h; tl]
                     | None => [p]
                     end) ps.

(** ** Tables in the block sequence (format_document, step 4) *)

(** [r'^表\\s*(?:\\d+|[一二三四五六七八九十]+)(?:[\\-\\—\\._、]\\d+)?'] as
    written: every [\\] is one literal backslash (code point 92). *)
Definition table_title_re : re :=
  cats [lit "表"; ch 92; star (Z.eqb 115);
        Alt (Cat (ch 92) (plus (Z.eqb 100))) (plus cn_num);
        Alt (cats [Cls (oneof "\—._、"); ch 92; plus (Z.eqb 100)]) Eps].

(** [r'^单位\\s*[:：]'] as written. *)
Definition table_unit_re : re := cats [lit "单位"; ch 92; star (Z.eqb 115); Cls (oneof ":：")].

Definition _is_table_title (t : text) : bool :=
  let t := strip t in
  match t with [] => false | _ => (length t <=? 30)%nat && rmatch table_title_re t end.

Definition _is_table_unit (t : text) : bool :=
  let t := strip t in
  match t with [] => false | _ => (length t <=? 20)%nat && rmatch table_unit_re t end.

Inductive LineRule := RSingle | RExactly | RMultiple | RAtLeast.

(** Paragraph properties touched by the table pass ([None]: not set). *)
Record PFmt := mkPFmt {
  f_align : option Align; f_before : option Q; f_after : option Q; f_rule : option LineRule }.

Definition no_fmt : PFmt := mkPFmt None None None None.

(** A body child of the document: a paragraph or a table, each with the
    identity of its XML element. *)
Inductive Block := BP (id : nat) (t : text) (f : PFmt) | BT (id : nat).

Definition block_id (b : Block) : nat := match b with BP i _ _ => i | BT i => i end.

(** The live document and the next fresh element identity. *)
Record Doc := mkDoc { blocks_of : list Block; fresh : nat }.

Definition blank_para (d : Doc) : Block := BP (fresh d) [] no_fmt.

(** [addprevious] / [addnext] of a new empty [w:p] next to element [i]. *)
Definition insert_before (i : nat) (d : Doc) : Doc :=
  mkDoc (flat_map (fun b => if Nat.eqb (block_id b) i then [blank_para d; b] else [b])
                  (blocks_of d)) (S (fresh d)).
Definition insert_after (i : nat) (d : Doc) : Doc :=
  mkDoc (flat_map (fun b => if Nat.eqb (block_id b) i then [b; blank_para d] else [b])
                  (blocks_of d)) (S (fresh d)).

Definition set_fmt (i : nat) (g : PFmt -> PFmt) (d : Doc) : Doc :=
  mkDoc (map (fun b => match b with
                       | BP j t f => if Nat.eqb j i then BP j t (g f) else b
                       | BT _ => b end) (blocks_of d)) (fresh d).

Record TableCfg := mkTableCfg {
  after_table_blank_line : bool; title_align_center : bool; unit_align_right : bool;
  unit_space_before_lines : Q; tbl_size : Q }.

(** [table_defaults] with the official preset's body size 16. *)
Definition default_cfg : TableCfg := mkTableCfg true true true (1 # 2) 16.

Definition para_text (b : option Block) : option text :=
  match b with Some (BP _ t _) => Some t | _ => None end.

Definition is_blank_para (b : option Block) : bool :=
  match b with Some (BP _ t _) => is_blank t | _ => false end.

(** The block-level part of the per-table body of step 4: the blank
    separators and the caption paragraphs.  [blocks] is the list taken once
    before the loop; edits go to the live document [d]. *)
Definition layout_table (cfg : TableCfg) (blocks : list Block) (idx tid : nat) (d : Doc)
  : Doc :=
  let prev := if Nat.eqb idx 0 then None else nth_error blocks (idx - 1) in
  let prev_is_title := match para_text prev with Some t => _is_table_title t | None => false end in
  let prev_is_unit := match para_text prev with Some t => _is_table_unit t | None => false end in
  let d := match prev with
           | Some (BP pid t _) =>
               if is_blank t then d
               else if prev_is_title || prev_is_unit then insert_before pid d
               else insert_before tid d
           | Some (BT pid) => insert_after pid d
           | None => if Nat.eqb idx 0 then insert_before tid d else d
           end in
  let d := match prev with
           | Some (BP pid _ _) =>
               if prev_is_title then
                 set_fmt pid (fun f => mkPFmt (if title_align_center cfg then Some ACenter
                                               else f_align f)
                                              (Some 0%Q) (Some 0%Q) (Some RSingle)) d
               else d
           | _ => d
           end in
  let next := nth_error blocks (idx + 1) in
  let unit_id := match next with
                 | Some (BP nid t _) => if _is_table_unit t then Some nid else None
                 | _ => None
                 end in
  let d := match unit_id with
           | Some nid =>
               set_fmt nid (fun f => mkPFmt (if unit_align_right cfg then Some ARight
                                             else f_align f)
                                            (Some (tbl_size cfg * unit_space_before_lines cfg)%Q)
                                            (Some 0%Q) (Some RSingle)) d
           | None => d
           end in
  if after_table_blank_line cfg then
    match unit_id with
    | Some nid =>
        if is_blank_para (nth_error blocks (idx + 2)) then d else insert_after nid d
    | None => if is_blank_para next then d else insert_after tid d
    end
  else d.

Fixpoint layout_from (cfg : TableCfg) (blocks : list Block) (idx : nat) (rest : list Block)
         (d : Doc) : Doc :=
  match rest with
  | [] => d
  | BT tid :: rest' => layout_from cfg blocks (S idx) rest' (layout_table cfg blocks idx tid d)
  | BP _ _ _ :: rest' => layout_from cfg blocks (S idx) rest' d
  end.

(** One run of the table loop over the document. *)
Definition layout_tables (cfg : TableCfg) (d : Doc) : Doc :=
  layout_from cfg (blocks_of d) 0 (blocks_of d) d.

Definition count_blank (d : Doc) : nat :=
  length (filter (fun b => is_blank_para (Some b)) (blocks_of d)).

(** ** Python floats (IEEE 754 binary64)

    A float is a finite value [Fin q], where [q] is the exact rational
    value of the double, or an infinity, or NaN. Every arithmetic operation
    rounds its exact result to the nearest double, ties to even, with
    subnormals and overflow to infinity, as CPython does through the C
    double operations. The sign of a zero is not tracked: the code below
    never divides by zero and never prints a zero. *)

Definition two_pow (k : Z) : Q := Qpower (2 # 1) k.

(** [floor(log2 x)] for [x > 0]. *)
Definition flog2 (x : Q) : Z :=
  let k := Z.log2 (Qnum x) - Z.log2 (Zpos (Qden x)) in
  if Qle_bool (two_pow k) x then k else k - 1.

(** Round to the nearest integer, ties to even. *)
Definition round_even (m : Q) : Z :=
  let q := Qnum m / Zpos (Qden m) in
  let r := Qnum m mod Zpos (Qden m) in
  match Z.compare (2 * r) (Zpos (Qden m)) with
  | Lt => q
  | Gt => q + 1
  | Eq => if Z.even q then q else q + 1
  end.

(** Rounding of [x > 0] to 53 significant bits; the exponent is at least
    [-1022], which gives the subnormals. *)
Definition round_pos (x : Q) : Q :=
  let e := Z.max (flog2 x) (-1022) - 52 in
  inject_Z (round_even (x / two_pow e)) * two_pow e.

Inductive F := Fin (q : Q) | Inf (neg : bool) | NaN.

Definition round (x : Q) : F :=
  match (x ?= 0)%Q with
  | Eq => Fin 0
  | Gt => let y := round_pos x in if Qle_bool (two_pow 1024) y then Inf false else Fin y
  | Lt => let y := round_pos (- x) in if Qle_bool (two_pow 1024) y then Inf true else Fin (- y)
  end.

Definition qneg (a : Q) : bool := negb (Qle_bool 0 a).

(** [x + y] *)
Definition fadd (x y : F) : F :=
  match x, y with
  | NaN, _ | _, NaN => NaN
  | Inf a, Inf b => if Bool.eqb a b then Inf a else NaN
  | Inf a, Fin _ | Fin _, Inf a => Inf a
  | Fin a, Fin b => round (a + b)
  end.

(** [x * y] *)
Definition fmul (x y : F) : F :=
  match x, y with
  | NaN, _ | _, NaN => NaN
  | Inf a, Inf b => Inf (xorb a b)
  | Inf a, Fin b | Fin b, Inf a => if Qeq_bool b 0 then NaN else Inf (xorb a (qneg b))
  | Fin a, Fin b => round (a * b)
  end.

(** [x / y]; Python raises [ZeroDivisionError] on a zero divisor, which
    the code below never has (its divisors are [sum(...) or 1.0]). *)
Definition fdiv (x y : F) : F :=
  match x, y with
  | NaN, _ | _, NaN => NaN
  | Inf _, Inf _ => NaN
  | Inf a, Fin b => if Qeq_bool b 0 then NaN else Inf (xorb a (qneg b))
  | Fin _, Inf _ => Fin 0
  | Fin a, Fin b => if Qeq_bool b 0 then NaN else round (a / b)
  end.

(** [x < y]; every comparison with NaN is false. *)
Definition flt (x y : F) : bool :=
  match x, y with
  | Fin a, Fin b => negb (Qle_bool b a)
  | Fin _, Inf n => negb n
  | Inf n, Fin _ => n
  | Inf a, Inf b => a && negb b
  | _, _ => false
  end.

(** [bool(x)] *)
Definition ftruthy (x : F) : bool :=
  match x with Fin a => negb (Qeq_bool a 0) | _ => true end.

(** [sum(xs)]: the builtin adds left to right from the integer [0]
    (CPython up to 3.11; 3.12 switched float sums to compensated
    summation). *)
Definition py_sum (xs : list F) : F := fold_left fadd xs (Fin 0).

(** The exact value of a finite float; [0] for the others. *)
Definition fval (x : F) : Q := match x with Fin q => q | _ => 0%Q end.

(** The unit roundoff [2^-53] of binary64, and powers of a rational, for
    stating rounding bounds. *)
Definition unit_roundoff : Q := 1 # 9007199254740992.

Fixpoint qpow (q : Q) (n : nat) : Q :=
  match n with O => 1%Q | S n' => (q * qpow q n')%Q end.

(** The exact sum of rationals. *)
Definition sumQ (xs : list Q) : Q := fold_right Qplus 0%Q xs.

(** ** Column widths ([_text_weight], [_normalize_pcts]) *)

Definition _text_weight (t : text) : F :=
  fold_left (fun w c => if c <? 128 then fadd w (Fin (1 # 2)) else fadd w (Fin 1)) t (Fin 0).

(** [x or 1.0] on a float *)
Definition or_one (x : F) : F := if ftruthy x then x else Fin 1.

(** One step of the clamp-low and clamp-high loops. *)
Definition clamp_low (min_pct v : F) : F := if flt v min_pct then min_pct else v.
Definition clamp_high (max_pct v : F) : F := if flt max_pct v then max_pct else v.

(** [w / total * 100] *)
Definition pct_of (total w : F) : F := fmul (fdiv w total) (Fin 100).

(** [pcts] after the first normalisation and both clamping loops. *)
Definition clamped_pcts (weights : list F) (min_pct max_pct : F) : list F :=
  let total := or_one (py_sum weights) in
  let pcts := map (pct_of total) weights in
  map (clamp_high max_pct) (map (clamp_low min_pct) pcts).

Definition _normalize_pcts (weights : list F) (min_pct max_pct : F) : list F :=
  let pcts := clamped_pcts weights min_pct max_pct in
  let total := or_one (py_sum pcts) in
  map (pct_of total) pcts.

(** ** Paragraph styling ([format_paragraph], paragraph-level part) *)

Inductive AlignKey := KCenter | KLeft | KRight | KJustify | KOtherKey.

(** The keys of a preset's per-role dict that [format_paragraph] reads at
    paragraph level; an outer [None] is a missing key, and for
    [line_spacing] [Some None] is an explicit Python [None]. *)
Record StyleSpec := mkStyleSpec {
  s_align : option AlignKey;
  s_indent : option Q;
  s_line_spacing : option (option Q);
  s_space_before : option Q;
  s_space_after : option Q }.

Inductive LineSpacing := LSExactly (pt : Q) | LSMultiple (m : Q).

Record ParaFormat := mkParaFormat {
  o_align : Align; o_left : Q; o_right : Q; o_first_line : Q;
  o_spacing : LineSpacing; o_before : Q; o_after : Q }.

Definition get_default {A} (o : option A) (d : A) : A :=
  match o with Some a => a | None => d end.

(** Python truthiness of the number-or-None [ls]. *)
Definition truthy (ls : option Q) : bool :=
  match ls with Some v => negb (Qeq_bool v 0) | None => false end.

Definition format_paragraph_fmt (fmt : StyleSpec) (line_spacing_pt : Q) : ParaFormat :=
  let al := match get_default (s_align fmt) KJustify with
            | KCenter => ACenter | KLeft => ALeft | KRight => ARight
            | KJustify => AJustify | KOtherKey => AJustify end in
  let indent := get_default (s_indent fmt) 0%Q in
  let first := if Qle_bool indent 0 then 0%Q else indent in
  (* ls = fmt.get('line_spacing', line_spacing_pt) *)
  let ls := get_default (s_line_spacing fmt) (Some line_spacing_pt) in
  let spacing := match ls with
                 | Some v => if truthy ls then LSExactly v else LSMultiple (3 # 2)
                 | None => LSMultiple (3 # 2)
                 end in
  mkParaFormat al 0 0 first spacing
               (get_default (s_space_before fmt) 0%Q) (get_default (s_space_after fmt) 0%Q).

(** The call of step 3: [format_paragraph(para, fmt, para_type,
    first_line_bold=...)], so [line_spacing_pt] keeps its default 28. *)
Definition driver_format (fmt : StyleSpec) : ParaFormat := format_paragraph_fmt fmt 28.

(** [PRESETS['official']['title']]: no [line_spacing] key. *)
Definition official_title : StyleSpec := mkStyleSpec (Some KCenter) (Some 0%Q) None None None.
(** [PRESETS['academic']['body']]: [line_spacing] is [None]. *)
Definition academic_body : StyleSpec :=
  mkStyleSpec (Some KJustify) (Some 24%Q) (Some None) None None.

(** ** Preset selection and the command line *)

Inductive Event := EPrint (t : text) | ELoad (path : text) | EProcess | ESave (path : text)
                 | EExit (code : Z).

Definition preset_keys : list text := [u "official"; u "academic"; u "legal"].

Fixpoint join (sep : text) (l : list text) : text :=
  match l with [] => [] | [x] => x | x :: l' => x ++ sep ++ join sep l' end.

Definition preset_display_name (name : text) : text :=
  if text_eqb name (u "official") then u "公文格式"
  else if text_eqb name (u "academic") then u "学术论文格式" else u "法律文书格式".

(** [format_document(input_path, output_path, preset_name)] as a trace of
    its observable effects; [custom] is what [load_custom_preset()]
    returns ([None], or the loaded dict's display name).  Everything from
    [Document(input_path)] up to [doc.save] is the single [EProcess]. *)
Definition format_document (input_path output_path preset_name : text)
           (custom : option text) : list Event :=
  let run := [EPrint (u "Input: " ++ input_path); ELoad input_path; EProcess;
              ESave output_path] in
  if text_eqb preset_name (u "custom") then
    match custom with
    | None => EPrint (u "Custom preset not found, using official preset") :: run
    | Some nm => EPrint (u "Preset: " ++ nm) :: run
    end
  else if negb (existsb (text_eqb preset_name) preset_keys) then
    [EPrint (u "Unknown preset: " ++ preset_name);
     EPrint (u "Available: " ++ join (u ", ") preset_keys);
     EExit 1]
  else EPrint (u "Preset: " ++ preset_display_name preset_name) :: run.

(** The [__main__] block on [sys.argv]. *)
Definition main (argv : list text) (custom : option text) : list Event :=
  match argv with
  | _ :: input_file :: output_file :: _ =>
      let preset := match index_of (u "--preset") argv with
                    | Some i => match nth_error argv (S i) with
                                | Some v => v | None => u "official" end
                    | None => u "official"
                    end in
      format_document input_file output_file preset custom
  | _ => [EPrint (u "Usage: python formatter.py input.docx output.docx [--preset official|academic|legal]");
          EExit 1]
  end.

Definition exits_with (code : Z) (evs : list Event) : Prop := last evs EProcess = EExit code.
Definition loads (evs : list Event) : bool :=
  existsb (fun e => match e with ELoad _ => true | _ => false end) evs.
Definition saves (evs : list Event) : bool :=
  existsb (fun e => match e with ESave _ => true | _ => false end) evs.

(** ** Table cells and rows (format_document, step 4) *)

Definition Cell := list text.   (* the texts of the cell's paragraphs *)
Definition Row := list Cell.

Inductive Exc (A : Type) := Ok (a : A) | Raise (msg : text).
Arguments Ok {A} a.
Arguments Raise {A} msg.

Definition cell_text (c : Cell) : text := strip (concat c).

(** [max(...)] over an iterable: [ValueError] when it is empty. *)
Definition py_max (l : list nat) : Exc nat :=
  match l with [] => Raise (u "ValueError") | x :: l' => Ok (fold_left Nat.max l' x) end.

(** [xs[i] = v], raising [IndexError] out of range. *)
Definition set_nth {A} (xs : list A) (i : nat) (v : A) : Exc (list A) :=
  if (i <? length xs)%nat then Ok (firstn i xs ++ v :: skipn (S i) xs)
  else Raise (u "IndexError").

Fixpoint update_weights (ws : list F) (c_idx : nat) (cells : Row) : Exc (list F) :=
  match cells with
  | [] => Ok ws
  | c :: cs =>
      let t := cell_text c in
      match t with
      | [] => update_weights ws (S c_idx) cs
      | _ => match nth_error ws c_idx with
             | None => Raise (u "IndexError")
             | Some w =>
                 let w' := if flt w (_text_weight t) then _text_weight t else w in
                 match set_nth ws c_idx w' with
                 | Ok ws' => update_weights ws' (S c_idx) cs
                 | Raise m => Raise m
                 end
             end
      end
  end.

Fixpoint weights_of_rows (ws : list F) (rows : list Row) : Exc (list F) :=
  match rows with
  | [] => Ok ws
  | r :: rs => match update_weights ws 0 r with
               | Ok ws' => weights_of_rows ws' rs
               | Raise m => Raise m
               end
  end.

(** [_set_table_col_widths_by_content]: [Ok None] for the early returns
    (table untouched), [Ok (Some pcts)] for the grid it writes. *)
Definition _set_table_col_widths_by_content (rows : list Row) (min_pct max_pct : F)
  : Exc (option (list F)) :=
  match rows with
  | [] => Ok None
  | _ => match py_max (map (@length Cell) rows) with
         | Raise m => Raise m
         | Ok O => Ok None
         | Ok col_count =>
             match weights_of_rows (repeat (Fin 1) col_count) rows with
             | Raise m => Raise m
             | Ok ws => Ok (Some (_normalize_pcts ws min_pct max_pct))
             end
         end
  end.

(** [serial_col_idx]: the first header cell containing "序号" or equal to "序". *)
Fixpoint find_serial (c_idx : nat) (cells : Row) : option nat :=
  match cells with
  | [] => None
  | c :: cs => let h := cell_text c in
               if contains h (u "序号") || text_eqb h (u "序") then Some c_idx
               else find_serial (S c_idx) cs
  end.

Definition serial_col_idx (rows : list Row) : option nat :=
  match rows with [] => None | r :: _ => find_serial 0 r end.

(** The cells visited by the per-cell loop, with the alignment given to
    their paragraphs. *)
Definition cell_visits (rows : list Row) (serial : option nat) (short_len : nat)
  : list (nat * nat * Align) :=
  concat (map (fun '(ri, r) =>
                 map (fun '(ci, c) => (ri, ci, cell_alignment ri ci (cell_text c) serial short_len))
                     (combine (seq 0 (length r)) r))
              (combine (seq 0 (length rows)) rows)).

(** The row-level work of the table step with the default configuration:
    column widths, serial column, per-cell alignment. *)
Definition table_rows_step (rows : list Row)
  : Exc (option (list F) * option nat * list (nat * nat * Align)) :=
  match _set_table_col_widths_by_content rows (Fin 8) (Fin 45) with
  | Raise m => Raise m
  | Ok widths => let serial := serial_col_idx rows in
                 Ok (widths, serial, cell_visits rows serial 4)
  end.

(** Exact value of [_text_weight]: half a unit per ASCII character, one
    per other character. *)
Definition weight_exact (t : text) : Q :=
  (inject_Z (Z.of_nat (length (filter (fun c => c <? 128) t))) * (1 # 2)
   + inject_Z (Z.of_nat (length (filter (fun c => negb (c <? 128)) t))))%Q.

(** The separators [_split_heading_by_punct] looks for. *)
Definition split_puncts : list Z := [65306; 58; 12290].

(** A column weight: a finite float in [[1, 2^64]]. *)
Definition weight_ok (x : F) : Prop :=
  exists w, x = Fin w /\ (1 <= w <= 18446744073709551616)%Q.

Ltac case_ifs :=
  repeat match goal with
         | |- context [if ?b then _ else _] => destruct b eqn:?
         end.

(** * Properties *)

(** ** Sample evaluations *)
Example u_test : u "合计" = [21512; 35745]. Proof. reflexivity. Qed.
Example num_test1 : _is_numeric_text (u "1,234.50%") = false. Proof. reflexivity. Qed.
Example num_test2 : _is_numeric_text (u "\ddd") = true. Proof. reflexivity. Qed.
Example al_test : cell_alignment 1 1 (u "1,234.50%") None 4 = ALeft. Proof. reflexivity. Qed.
Example dpt1 : detect_para_type (u "一、概述") 10 50 None [] = heading1. Proof. reflexivity. Qed.
Example dpt2 : detect_para_type (u "关于开展安全检查工作的通知") 0 20 (Some ALeft) [] = title.
Proof. reflexivity. Qed.
Example dpt3 : detect_para_type (u "2024年3月15日") 19 20 None [] = date. Proof. reflexivity. Qed.
Example dpt4 : detect_para_type (u "某某公司") 15 20 None [] = signature. Proof. reflexivity. Qed.
Example dpt5 : detect_para_type (u "办公厅综合处") 15 20 None
  [u "办公厅综合处"; u "2024年3月15日"] = signature. Proof. reflexivity. Qed.
Example dpt6 : detect_para_type (u "（二）加强宣传教育。") 3 20 None [] = heading2. Proof. reflexivity. Qed.
Example dpt7 : detect_para_type (u "营造良好氛围。") 8 20 None [] = body. Proof. reflexivity. Qed.
Example dpt8 : detect_para_type (u "  ") 8 20 None [] = empty. Proof. reflexivity. Qed.

Lemma orb_false_split (a b : bool) : a || b = false -> a = false /\ b = false.
Proof. destruct a, b; simpl; intuition congruence. Qed.

Ltac split_false :=
  repeat match goal with
         | H : _ || _ = false |- _ => apply orb_false_split in H; destruct H
         end.

Ltac rewrite_false :=
  repeat match goal with
         | H : ?b = false |- _ => progress rewrite H
         end.

(** Unfolds the classifier at a non-empty stripped text [c :: cs]. *)
Ltac open_detect E :=
  unfold detect_para_type; cbv zeta; rewrite E.

Lemma detect_nonempty_not_empty (t : text) (i n : Z) (a : option Align) (l : list text) :
  strip t <> [] -> detect_para_type t i n a l <> empty.
Proof.
  intros Hne; destruct (strip t) as [|c cs] eqn:E; [congruence|].
  open_detect E; case_ifs; discriminate.
Qed.

(** C10: the classifier is total with the closed role set as codomain; it
    answers [empty] exactly when the stripped text is empty, and a non-empty
    text on which no rule of its ordered table fires is [body]. *)
Theorem detect_para_type_total_closed (t : text) (i n : Z) (a : option Align)
        (l : list text) :
  In (detect_para_type t i n a l) all_roles
  /\ (detect_para_type t i n a l = empty <-> strip t = [])
  /\ (strip t <> [] -> existsb fst (decision_table (strip t) i n a l) = false ->
      detect_para_type t i n a l = body).
Proof.
  split; [destruct (detect_para_type t i n a l); simpl; tauto|].
  split.
  - split.
    + intros Hd. destruct (strip t) eqn:E; [reflexivity|].
      exfalso. apply (detect_nonempty_not_empty t i n a l); [congruence|exact Hd].
    + intros E. unfold detect_para_type. rewrite E. reflexivity.
  - intros Hne Hf. destruct (strip t) as [|c cs] eqn:E; [congruence|].
    unfold decision_table, earlier_rules, signature_cond, title_cond in Hf.
    cbv zeta in Hf. cbn [existsb fst app] in Hf. split_false.
    open_detect E. rewrite_false. reflexivity.
Qed.

Lemma detect_para_type_total_closed_witness :
  u "营造良好氛围。" <> []
  /\ existsb fst (decision_table (strip (u "营造良好氛围。")) 8 20 None []) = false
  /\ detect_para_type (u "营造良好氛围。") 8 20 None [] = body.
Proof.
  assert (Hne : strip (u "营造良好氛围。") <> []) by discriminate.
  assert (Hf : existsb fst (decision_table (strip (u "营造良好氛围。")) 8 20 None []) = false)
    by reflexivity.
  split; [discriminate|]. split; [exact Hf|].
  exact (proj2 (proj2 (detect_para_type_total_closed (u "营造良好氛围。") 8 20 None [])) Hne Hf).
Defined.

(** C5 (as the code has it): once no rule before rule 9 fires, the
    signature role is given exactly when [index >= total - 10], the text is
    shorter than 30 and either ends with an organisational suffix or one of
    the (at most) 3 texts after the first occurrence of the text in
    [all_texts] is a date. *)
Theorem rule9_signature_iff (t : text) (i n : Z) (a : option Align) (l : list text) :
  strip t <> [] -> earlier_rules_fire (strip t) = false ->
  (detect_para_type t i n a l = signature <-> signature_cond (strip t) i n l = true).
Proof.
  intros Hne Hf. destruct (strip t) as [|c cs] eqn:E; [congruence|].
  unfold earlier_rules_fire, earlier_rules in Hf. cbv zeta in Hf.
  cbn [existsb fst] in Hf. split_false.
  open_detect E. rewrite_false. unfold signature_cond.
  destruct ((n - 10 <=? i) && (Z.of_nat (length (c :: cs)) <? 30) && _); [tauto|].
  split; [|discriminate]. case_ifs; discriminate.
Qed.

Lemma rule9_signature_iff_witness :
  strip (u "办公厅综合处") <> []
  /\ earlier_rules_fire (strip (u "办公厅综合处")) = false
  /\ (detect_para_type (u "办公厅综合处") 15 20 None [u "办公厅综合处"; u "2024年3月15日"]
        = signature
      <-> signature_cond (strip (u "办公厅综合处")) 15 20
            [u "办公厅综合处"; u "2024年3月15日"] = true).
Proof.
  assert (Hne : strip (u "办公厅综合处") <> []) by discriminate.
  assert (Hf : earlier_rules_fire (strip (u "办公厅综合处")) = false) by reflexivity.
  split; [exact Hne|]. split; [exact Hf|].
  exact (rule9_signature_iff (u "办公厅综合处") 15 20 None
           [u "办公厅综合处"; u "2024年3月15日"] Hne Hf).
Defined.

(** C5 as stated fails: a document whose only non-empty paragraph is the
    short organisation name "某某公司", followed by 11 empty paragraphs.
    The paragraph is among the last 10 non-empty paragraphs, short, ends
    with the suffix "公司" and reaches rule 9, yet the driver classifies it
    as [body], because [index >= total - 10] counts empty paragraphs. *)
Lemma rule9_last_ten_nonempty_counterexample :
  let ps := mkPara (u "某某公司") None :: repeat (mkPara [] None) 11 in
  (nonempty_from ps 0 <= 10)%nat
  /\ (length (strip (u "某某公司")) < 30)%nat
  /\ rsearch org_suffix_re (strip (u "某某公司")) = true
  /\ earlier_rules_fire (strip (u "某某公司")) = false
  /\ nth 0 (classify_document ps) None = Some body.
Proof. vm_compute. repeat split; lia. Qed.

Example split_test1 :
  split_headings [mkPara (u "（三）工作要求：各单位要高度重视。") (Some AJustify)]
  = [mkPara (u "（三）工作要求：") (Some AJustify); mkPara (u "各单位要高度重视。") None].
Proof. reflexivity. Qed.
Example split_test2 :
  split_headings [mkPara (u "（二）加强宣传教育，营造良好氛围。") None]
  = [mkPara (u "（二）加强宣传教育，营造良好氛围。") None].
Proof. reflexivity. Qed.

Lemma split_headings_app (pre post : list Para) (p : Para) :
  split_headings (pre ++ p :: post)
  = split_headings pre
    ++ match _split_heading_by_punct p with Some (h, tl) => [h; tl] | None => [p] end
    ++ split_headings post.
Proof. unfold split_headings. rewrite flat_map_app. reflexivity. Qed.

(** C2 as stated fails: the paragraph "（二）加强宣传教育，营造良好氛围。"
    has no colon, and its only full stop is its last character, so nothing
    follows it and the splitter leaves the paragraph as it is. *)
Lemma split_heading_example_counterexample :
  split_headings [mkPara (u "（二）加强宣传教育，营造良好氛围。") None]
  <> [mkPara (u "（二）加强宣传教育。") None; mkPara (u "营造良好氛围。") None].
Proof. vm_compute. discriminate. Qed.

(** C2 (as the code has it): for a paragraph whose stripped text [t]
    starts with a heading marker, if the first of '：', ':' or '。' occurs
    at [k] and text follows it, the paragraph is truncated to the stripped
    [t[:k+1]] (keeping its own properties) and a new bare paragraph with the
    stripped remainder is inserted right after it; when there is no marker,
    no such punctuation or nothing after it, the paragraph is left as it is.
    In particular "（二）加强宣传教育，营造良好氛围。" is left untouched:
    the comma is not a split point. *)
Theorem split_heading_by_punct_spec (pre post : list Para) (p : Para) (k : Z) :
  (any_match heading_prefix_patterns (strip (p_text p)) = true ->
   split_index (strip (p_text p)) = Some k ->
   strip (skipn (Z.to_nat (k + 1)) (strip (p_text p))) <> [] ->
   split_headings (pre ++ p :: post)
   = split_headings pre
     ++ [mkPara (strip (firstn (Z.to_nat (k + 1)) (strip (p_text p)))) (p_align p);
         mkPara (strip (skipn (Z.to_nat (k + 1)) (strip (p_text p)))) None]
     ++ split_headings post)
  /\ ((any_match heading_prefix_patterns (strip (p_text p)) = false
       \/ split_index (strip (p_text p)) = None
       \/ (split_index (strip (p_text p)) = Some k
           /\ strip (skipn (Z.to_nat (k + 1)) (strip (p_text p))) = [])) ->
      split_headings (pre ++ p :: post) = split_headings pre ++ p :: split_headings post)
  /\ split_headings [mkPara (u "（二）加强宣传教育，营造良好氛围。") None]
     = [mkPara (u "（二）加强宣传教育，营造良好氛围。") None].
Proof.
  rewrite split_headings_app.
  split; [|split; [|vm_compute; reflexivity]].
  - intros Hm Hk Ht. unfold _split_heading_by_punct.
    destruct (strip (p_text p)) as [|c cs] eqn:E; [discriminate|].
    rewrite Hm, Hk. cbn [negb].
    destruct (strip (skipn (Z.to_nat (k + 1)) (c :: cs))); [congruence|].
    reflexivity.
  - intros H. unfold _split_heading_by_punct.
    destruct (strip (p_text p)) as [|c cs] eqn:E; [reflexivity|].
    destruct H as [Hm|[Hk|[Hk Ht]]].
    + rewrite Hm. reflexivity.
    + destruct (negb _); [reflexivity|]. rewrite Hk. reflexivity.
    + destruct (negb _); [reflexivity|]. rewrite Hk, Ht. reflexivity.
Qed.

Lemma split_heading_by_punct_spec_witness :
  split_headings [mkPara (u "（三）工作要求：各单位要高度重视。") (Some AJustify)]
  = [mkPara (u "（三）工作要求：") (Some AJustify); mkPara (u "各单位要高度重视。") None].
Proof.
  exact (proj1 (split_heading_by_punct_spec []
                  [] (mkPara (u "（三）工作要求：各单位要高度重视。") (Some AJustify)) 7)
           eq_refl eq_refl ltac:(discriminate)).
Defined.

Lemma cell_alignment_subtotal (row_idx col_idx : nat) (t : text) (serial : option nat)
      (short_len : nat) :
  contains t (u "合计") = true -> cell_alignment row_idx col_idx t serial short_len = ACenter.
Proof.
  intros H. unfold cell_alignment. rewrite H. destruct (Nat.eqb row_idx 0); reflexivity.
Qed.

(** C1 at its failing input: in a body row, outside a serial column, the
    cell text "1,234.50%" is not recognised as numeric by [_is_numeric_text]
    (its pattern asks for a literal backslash), so the cell falls through
    the short-text test (9 characters > 4) and is left-aligned, whereas the
    numeric-literal pattern as worded matches "1234.50%"; "合计" is
    centred. *)
Theorem cell_alignment_numeric_failing :
  _is_numeric_text (u "1,234.50%") = false
  /\ rmatch numeric_re_spec (strip (replace1 65285 [37] (replace1 44 [] (u "1,234.50%"))))
     = true
  /\ cell_alignment 1 1 (u "1,234.50%") None 4 = ALeft
  /\ cell_alignment 1 1 (u "合计") None 4 = ACenter.
Proof. vm_compute. repeat split. Qed.

Example tt1 : _is_table_title (u "表1") = false. Proof. reflexivity. Qed.
Example tt2 : _is_table_title (u "表\一") = true. Proof. reflexivity. Qed.
Example tu1 : _is_table_unit (u "单位：万元") = false. Proof. reflexivity. Qed.
Example lay1 : blocks_of (layout_tables default_cfg (mkDoc [BP 0 (u "正文") no_fmt; BT 1] 2))
  = [BP 0 (u "正文") no_fmt; BP 2 [] no_fmt; BT 1; BP 3 [] no_fmt].
Proof. reflexivity. Qed.

(** C6 at its failing input: a paragraph "表1" right before a table and a
    paragraph "单位：万元" right after it.  Neither is detected as a
    caption (both patterns ask for a literal backslash), so neither is
    restyled; a blank separator is put between "表1" and the table and
    another one between the table and the unit line. *)
Theorem table_captions_failing :
  _is_table_title (u "表1") = false
  /\ _is_table_unit (u "单位：万元") = false
  /\ blocks_of (layout_tables default_cfg
                  (mkDoc [BP 0 (u "表1") no_fmt; BT 1; BP 2 (u "单位：万元") no_fmt] 3))
     = [BP 0 (u "表1") no_fmt; BP 3 [] no_fmt; BT 1; BP 4 [] no_fmt;
        BP 2 (u "单位：万元") no_fmt].
Proof. vm_compute. repeat split. Qed.

(** C7 at its failing input: a table preceded by a paragraph that the
    title pattern accepts ("表\一").  Every run inserts one more blank
    paragraph above the caption, whether or not one is already there. *)
Theorem blank_separator_accumulates :
  let d0 := mkDoc [BP 0 (u "表\一") no_fmt; BT 1] 2 in
  let d1 := layout_tables default_cfg d0 in
  let d2 := layout_tables default_cfg d1 in
  count_blank d1 = 2%nat /\ count_blank d2 = 3%nat
  /\ blocks_of d2
     = [BP 2 [] no_fmt; BP 4 [] no_fmt;
        BP 0 (u "表\一") (mkPFmt (Some ACenter) (Some 0%Q) (Some 0%Q) (Some RSingle));
        BT 1; BP 3 [] no_fmt].
Proof. vm_compute. repeat split; reflexivity. Qed.

(** *** Column widths *)

Lemma two_pow_pos (k : Z) : (0 < two_pow k)%Q.
Proof. apply Qpower_0_lt. reflexivity. Qed.

Lemma two_pow_add (a b : Z) : (two_pow (a + b) == two_pow a * two_pow b)%Q.
Proof. apply Qpower_plus. discriminate. Qed.

Lemma two_pow_nat (k : Z) : 0 <= k -> (two_pow k == inject_Z (2 ^ k))%Q.
Proof. intros H. unfold two_pow. rewrite Zpower_Qpower by exact H. reflexivity. Qed.

Lemma two_pow_mono (a b : Z) : a <= b -> (two_pow a <= two_pow b)%Q.
Proof. intros H. apply Qpower_le_compat_l; [exact H|discriminate]. Qed.

Lemma two_pow_mono_inv (a b : Z) : (two_pow a < two_pow b)%Q -> a < b.
Proof. intros H. eapply Qpower_lt_compat_l_inv; [exact H|reflexivity]. Qed.

Lemma flog2_spec (x : Q) :
  (0 < x)%Q -> (two_pow (flog2 x) <= x < two_pow (flog2 x + 1))%Q.
Proof.
  intros Hx. destruct x as [a b].
  assert (Ha : 0 < a) by (unfold Qlt in Hx; simpl in Hx; lia).
  unfold flog2; cbn [Qnum Qden].
  set (la := Z.log2 a). set (lb := Z.log2 (Zpos b)).
  destruct (Z.log2_spec a Ha) as [Ha1 Ha2].
  destruct (Z.log2_spec (Zpos b) eq_refl) as [Hb1 Hb2].
  fold la in Ha1, Ha2. fold lb in Hb1, Hb2.
  assert (Hla : 0 <= la) by apply Z.log2_nonneg.
  assert (Hlb : 0 <= lb) by apply Z.log2_nonneg.
  set (k := la - lb).
  assert (HT : (two_pow k * inject_Z (2 ^ lb) == inject_Z (2 ^ la))%Q).
  { rewrite <- !two_pow_nat by assumption. rewrite <- two_pow_add. unfold k.
    replace (la - lb + lb) with la by ring. reflexivity. }
  assert (HX : ((a # b) * inject_Z (Zpos b) == inject_Z a)%Q).
  { rewrite Qmake_Qdiv. field. discriminate. }
  rewrite Zle_Qle in Hb1. rewrite Zlt_Qlt in Hb2, Ha2. rewrite Zle_Qle in Ha1.
  rewrite Z.pow_succ_r in Ha2, Hb2 by assumption.
  rewrite inject_Z_mult in Ha2, Hb2.
  assert (H2a : (0 < inject_Z (2 ^ la))%Q).
  { change 0%Q with (inject_Z 0). rewrite <- Zlt_Qlt. apply Z.pow_pos_nonneg; lia. }
  assert (H2b : (0 < inject_Z (2 ^ lb))%Q).
  { change 0%Q with (inject_Z 0). rewrite <- Zlt_Qlt. apply Z.pow_pos_nonneg; lia. }
  assert (Hk1 : (two_pow (k + 1) == two_pow k * 2)%Q) by (rewrite two_pow_add; reflexivity).
  assert (HTk := two_pow_pos k).
  assert (Hup : ((a # b) < two_pow k * 2)%Q).
  { set (T := two_pow k) in *. set (X := (a # b)) in *.
    set (A := inject_Z a) in *. set (B := inject_Z (Zpos b)) in *.
    set (P := inject_Z (2 ^ la)) in *. set (R := inject_Z (2 ^ lb)) in *.
    change (inject_Z 2) with 2%Q in Ha2, Hb2.
    nra. }
  assert (Hlo : (two_pow k <= (a # b) * 2)%Q).
  { set (T := two_pow k) in *. set (X := (a # b)) in *.
    set (A := inject_Z a) in *. set (B := inject_Z (Zpos b)) in *.
    set (P := inject_Z (2 ^ la)) in *. set (R := inject_Z (2 ^ lb)) in *.
    change (inject_Z 2) with 2%Q in Ha2, Hb2.
    nra. }
  destruct (Qle_bool (two_pow k) (a # b)) eqn:E.
  - apply Qle_bool_iff in E. split; [exact E|]. rewrite Hk1. exact Hup.
  - assert (E' : ~ (two_pow k <= (a # b))%Q) by (intro C; apply Qle_bool_iff in C; congruence).
    apply Qnot_le_lt in E'.
    replace (k - 1 + 1) with k by ring. split; [|exact E'].
    assert (Hk0 : (two_pow k == two_pow (k - 1) * 2)%Q).
    { rewrite <- (two_pow_add (k - 1) 1). replace (k - 1 + 1) with k by ring. reflexivity. }
    lra.
Qed.

Lemma round_even_spec (m : Q) :
  (m - (1 # 2) <= inject_Z (round_even m) <= m + (1 # 2))%Q.
Proof.
  destruct m as [a d]. unfold round_even; cbn [Qnum Qden].
  assert (Hd : 0 < Zpos d) by reflexivity.
  pose proof (Z.div_mod a (Zpos d) ltac:(discriminate)) as Hdm.
  pose proof (Z.mod_pos_bound a (Zpos d) Hd) as [Hr0 Hr1].
  set (q := a / Zpos d) in *. set (r := a mod Zpos d) in *.
  assert (HM : ((a # d) == inject_Z q + inject_Z r / inject_Z (Zpos d))%Q).
  { rewrite Qmake_Qdiv. rewrite Hdm at 1. rewrite inject_Z_plus, inject_Z_mult.
    field. discriminate. }
  assert (HD : (0 < inject_Z (Zpos d))%Q) by reflexivity.
  assert (HR : (inject_Z r / inject_Z (Zpos d) * inject_Z (Zpos d) == inject_Z r)%Q)
    by (field; discriminate).
  set (D := inject_Z (Zpos d)) in *. set (R := (inject_Z r / D)%Q) in *.
  assert (HR0 : (0 <= R)%Q).
  { unfold R. apply Qle_shift_div_l; [exact HD|]. rewrite Qmult_0_l.
    change 0%Q with (inject_Z 0). rewrite <- Zle_Qle. lia. }
  assert (HR1 : (R < 1)%Q).
  { unfold R. apply Qlt_shift_div_r; [exact HD|]. rewrite Qmult_1_l.
    unfold D. rewrite <- Zlt_Qlt. lia. }
  rewrite HM.
  destruct (Z.compare_spec (2 * r) (Zpos d)) as [E|E|E].
  - assert (R == 1 # 2)%Q.
    { unfold R, D. rewrite <- E, inject_Z_mult. change (inject_Z 2) with 2%Q.
      field. intro Hz. assert (Hr : 0 < r) by lia. rewrite Zlt_Qlt in Hr.
      change (inject_Z 0) with 0%Q in Hr. lra. }
    destruct (Z.even q); [|rewrite inject_Z_plus; change (inject_Z 1) with 1%Q]; lra.
  - assert (R < 1 # 2)%Q.
    { unfold R. apply Qlt_shift_div_r; [exact HD|]. unfold D.
      setoid_replace ((1 # 2) * inject_Z (Zpos d))%Q with (inject_Z (Zpos d) / 2)%Q by field.
      apply Qlt_shift_div_l; [reflexivity|].
      change 2%Q with (inject_Z 2). rewrite <- inject_Z_mult, <- Zlt_Qlt. lia. }
    lra.
  - assert (1 # 2 < R)%Q.
    { unfold R. apply Qlt_shift_div_l; [exact HD|]. unfold D.
      setoid_replace ((1 # 2) * inject_Z (Zpos d))%Q with (inject_Z (Zpos d) / 2)%Q by field.
      apply Qlt_shift_div_r; [reflexivity|].
      change 2%Q with (inject_Z 2). rewrite <- inject_Z_mult, <- Zlt_Qlt. lia. }
    rewrite inject_Z_plus; change (inject_Z 1) with 1%Q. lra.
Qed.

Lemma round_pos_rel (x : Q) :
  (two_pow (-1022) <= x)%Q ->
  (x * (1 - unit_roundoff) <= round_pos x <= x * (1 + unit_roundoff))%Q.
Proof.
  intros Hmin.
  assert (Hx : (0 < x)%Q) by (eapply Qlt_le_trans; [apply two_pow_pos|exact Hmin]).
  destruct (flog2_spec x Hx) as [Hk1 Hk2].
  assert (Hk : -1022 <= flog2 x).
  { assert (-1022 < flog2 x + 1); [|lia].
    apply two_pow_mono_inv. eapply Qle_lt_trans; [exact Hmin|exact Hk2]. }
  unfold round_pos. rewrite Z.max_l by exact Hk.
  set (k := flog2 x) in *. set (s := two_pow (k - 52)).
  assert (Hs : (0 < s)%Q) by apply two_pow_pos.
  assert (Hks : (two_pow k == s * 4503599627370496)%Q).
  { unfold s. replace k with ((k - 52) + 52) at 1 by ring. rewrite two_pow_add. reflexivity. }
  pose proof (round_even_spec (x / s)) as [Hm1 Hm2].
  set (m := inject_Z (round_even (x / s))) in *.
  assert (HMs : (x / s * s == x)%Q) by (field; lra).
  set (M := (x / s)%Q) in *.
  assert (H1 : (m * s <= (M + (1 # 2)) * s)%Q) by (apply Qmult_le_compat_r; lra).
  assert (H2 : ((M - (1 # 2)) * s <= m * s)%Q) by (apply Qmult_le_compat_r; lra).
  unfold unit_roundoff. split; lra.
Qed.

Lemma round_rel (x : Q) :
  (two_pow (-1022) <= x)%Q -> (x <= two_pow 1000)%Q ->
  round x = Fin (round_pos x)
  /\ (x * (1 - unit_roundoff) <= round_pos x <= x * (1 + unit_roundoff))%Q.
Proof.
  intros Hmin Hmax.
  assert (Hx : (0 < x)%Q) by (eapply Qlt_le_trans; [apply two_pow_pos|exact Hmin]).
  pose proof (round_pos_rel x Hmin) as Hr.
  split; [|exact Hr].
  unfold round. apply Qgt_alt in Hx. rewrite Hx.
  destruct (Qle_bool (two_pow 1024) (round_pos x)) eqn:E; [|reflexivity].
  apply Qle_bool_iff in E.
  assert (Hc : (two_pow 1000 * (1 + unit_roundoff) < two_pow 1024)%Q) by (vm_compute; reflexivity).
  assert (Hu : (0 <= unit_roundoff)%Q) by (vm_compute; discriminate).
  assert (x * (1 + unit_roundoff) <= two_pow 1000 * (1 + unit_roundoff))%Q
    by (apply Qmult_le_compat_r; lra).
  lra.
Qed.

Lemma u_pos : (0 < unit_roundoff)%Q.
Proof. reflexivity. Qed.

Lemma u_small : (unit_roundoff <= 1 # 1024)%Q.
Proof. vm_compute. discriminate. Qed.

Lemma qpow_up_ge1 (n : nat) : (1 <= qpow (1 + unit_roundoff) n)%Q.
Proof.
  pose proof u_pos. induction n as [|n IH]; simpl; [lra|].
  assert (qpow (1 + unit_roundoff) n <= (1 + unit_roundoff) * qpow (1 + unit_roundoff) n)%Q
    by nra.
  lra.
Qed.

Lemma qpow_dn_range (n : nat) :
  (0 < qpow (1 - unit_roundoff) n <= 1)%Q.
Proof.
  pose proof u_pos. pose proof u_small. induction n as [|n IH]; simpl; [lra|].
  split; nra.
Qed.

Lemma qpow_up_bernoulli (n : nat) :
  (qpow (1 + unit_roundoff) n * (1 - inject_Z (Z.of_nat n) * unit_roundoff) <= 1)%Q.
Proof.
  pose proof u_pos.
  induction n as [|n IH]; simpl qpow; [change (inject_Z (Z.of_nat 0)) with 0%Q; lra|].
  pose proof (qpow_up_ge1 n).
  rewrite Nat2Z.inj_succ, <- Z.add_1_r, inject_Z_plus. change (inject_Z 1) with 1%Q.
  set (P := qpow (1 + unit_roundoff) n) in *.
  set (N := inject_Z (Z.of_nat n)) in *.
  assert (HN : (0 <= N)%Q) by (unfold N; change 0%Q with (inject_Z 0); rewrite <- Zle_Qle; lia).
  assert (0 <= P * (N + 1) * unit_roundoff * unit_roundoff)%Q.
  { apply Qmult_le_0_compat; [|lra]. apply Qmult_le_0_compat; [|lra].
    apply Qmult_le_0_compat; lra. }
  nra.
Qed.

Lemma qpow_dn_bernoulli (n : nat) :
  (1 - inject_Z (Z.of_nat n) * unit_roundoff <= qpow (1 - unit_roundoff) n)%Q.
Proof.
  pose proof u_pos. pose proof u_small.
  induction n as [|n IH]; simpl qpow; [change (inject_Z (Z.of_nat 0)) with 0%Q; lra|].
  rewrite Nat2Z.inj_succ, <- Z.add_1_r, inject_Z_plus. change (inject_Z 1) with 1%Q.
  pose proof (qpow_dn_range n) as [Hd0 Hd1].
  set (P := qpow (1 - unit_roundoff) n) in *.
  set (N := inject_Z (Z.of_nat n)) in *.
  assert (HN : (0 <= N)%Q) by (unfold N; change 0%Q with (inject_Z 0); rewrite <- Zle_Qle; lia).
  nra.
Qed.

(** Up to [2^20] terms the accumulated factors stay within [1/2, 2]. *)
Lemma qpow_small (n : nat) : Z.of_nat n <= 1048576 ->
  (qpow (1 + unit_roundoff) n <= 2)%Q /\ (1 # 2 <= qpow (1 - unit_roundoff) n)%Q.
Proof.
  intros Hn.
  assert (HN : (inject_Z (Z.of_nat n) * unit_roundoff <= 1 # 4)%Q).
  { assert (inject_Z (Z.of_nat n) <= 1048576)%Q.
    { change 1048576%Q with (inject_Z 1048576). rewrite <- Zle_Qle. lia. }
    pose proof u_pos. apply Qle_trans with (1048576 * unit_roundoff)%Q;
      [apply Qmult_le_compat_r; lra|vm_compute; discriminate]. }
  assert (HN0 : (0 <= inject_Z (Z.of_nat n))%Q)
    by (change 0%Q with (inject_Z 0); rewrite <- Zle_Qle; lia).
  pose proof (qpow_up_bernoulli n). pose proof (qpow_dn_bernoulli n).
  pose proof (qpow_up_ge1 n). split; [nra|lra].
Qed.

(** Python's [sum] over finite positive floats, as a left fold: the float
    result stays within the accumulated relative error of the exact sum. *)
Lemma fsum_rel (l : list Q) (lo : Q) (s X : Q) (k : nat) :
  (two_pow (-1022) <= lo)%Q -> Forall (fun c => lo <= c)%Q l ->
  (0 <= X)%Q ->
  (X * qpow (1 - unit_roundoff) k <= s <= X * qpow (1 + unit_roundoff) k)%Q ->
  ((X + sumQ l) * qpow (1 + unit_roundoff) (k + length l) <= two_pow 1000)%Q ->
  exists t, fold_left fadd (map Fin l) (Fin s) = Fin t
    /\ ((X + sumQ l) * qpow (1 - unit_roundoff) (k + length l) <= t
        <= (X + sumQ l) * qpow (1 + unit_roundoff) (k + length l))%Q.
Proof.
  revert s X k. induction l as [|c l IH]; intros s X k Hlo HF HX Hs Hmax.
  - exists s. cbn [map fold_left length]. rewrite Nat.add_0_r. split; [reflexivity|].
    change (sumQ []) with 0%Q. rewrite Qplus_0_r. exact Hs.
  - inversion HF as [|c' l' Hc HF']; subst.
    assert (Hl0 : (0 <= sumQ l)%Q).
    { clear -HF' Hlo Hc. pose proof (two_pow_pos (-1022)).
      induction l as [|d l IHl]; [unfold sumQ; simpl; lra|].
      inversion HF'; subst. unfold sumQ in *; simpl. specialize (IHl H3). lra. }
    pose proof (two_pow_pos (-1022)) as Hp.
    pose proof u_pos as Hu. pose proof u_small as Hu'.
    pose proof (qpow_up_ge1 k) as Hk1. pose proof (qpow_dn_range k) as [Hk2 Hk3].
    pose proof (qpow_up_ge1 (k + S (length l))) as Hk4.
    assert (Hmono : (qpow (1 + unit_roundoff) (S k) <= qpow (1 + unit_roundoff) (k + S (length l)))%Q).
    { clear. replace (k + S (length l))%nat with (length l + S k)%nat by lia.
      generalize (S k) as m. induction (length l) as [|j IHj]; intros m; simpl; [lra|].
      pose proof (qpow_up_ge1 (j + m)). pose proof u_pos.
      specialize (IHj m). nra. }
    assert (Hsum : (s + c <= (X + c) * qpow (1 + unit_roundoff) k)%Q) by nra.
    assert (Hsum' : ((X + c) * qpow (1 - unit_roundoff) k <= s + c)%Q) by nra.
    assert (Hrange : (s + c <= two_pow 1000)%Q).
    { change (length (c :: l)) with (S (length l)) in Hmax.
      change (sumQ (c :: l)) with (c + sumQ l)%Q in Hmax.
      simpl qpow in Hmono.
      set (PN := qpow (1 + unit_roundoff) (k + S (length l))) in *.
      set (Pk := qpow (1 + unit_roundoff) k) in *.
      assert (a1 : (Pk <= PN)%Q) by nra.
      assert (a2 : ((X + c) * Pk <= (X + c) * PN)%Q).
      { rewrite !(Qmult_comm (X + c)). apply Qmult_le_compat_r; lra. }
      assert (a3 : ((X + c) * PN <= (X + (c + sumQ l)) * PN)%Q).
      { apply Qmult_le_compat_r; lra. }
      lra. }
    assert (Hs0 : (0 <= s)%Q).
    { apply Qle_trans with (X * qpow (1 - unit_roundoff) k)%Q; [|lra].
      apply Qmult_le_0_compat; lra. }
    destruct (round_rel (s + c)) as [Hr [Hr1 Hr2]]; [lra|exact Hrange|].
    cbn [map fold_left]. change (fadd (Fin s) (Fin c)) with (round (s + c)). rewrite Hr.
    destruct (IH (round_pos (s + c)) (X + c)%Q (S k) Hlo HF') as [t [Ht1 Ht2]];
      [lra| | |].
    + cbn [qpow]. split; nra.
    + replace (S k + length l)%nat with (k + length (c :: l))%nat by (cbn [length]; lia).
      change (sumQ (c :: l)) with (c + sumQ l)%Q in Hmax.
      setoid_replace (X + c + sumQ l)%Q with (X + (c + sumQ l))%Q by ring. exact Hmax.
    + exists t. split; [exact Ht1|].
      replace (k + length (c :: l))%nat with (S k + length l)%nat by (cbn [length]; lia).
      change (sumQ (c :: l)) with (c + sumQ l)%Q.
      setoid_replace (X + (c + sumQ l))%Q with (X + c + sumQ l)%Q by ring. exact Ht2.
Qed.

Lemma pct_of_rel (T c : Q) :
  (0 < T)%Q -> (two_pow (-200) <= c / T <= two_pow 200)%Q ->
  exists r, pct_of (Fin T) (Fin c) = Fin r
    /\ (c / T * 100 * qpow (1 - unit_roundoff) 2 <= r
        <= c / T * 100 * qpow (1 + unit_roundoff) 2)%Q.
Proof.
  intros HT [HD1 HD2].
  unfold pct_of, fdiv.
  destruct (Qeq_bool T 0) eqn:E0; [apply Qeq_bool_iff in E0; lra|].
  set (D := (c / T)%Q) in *.
  assert (Hc1 : (two_pow (-1022) <= two_pow (-200))%Q) by (apply two_pow_mono; lia).
  assert (Hc2 : (two_pow 200 <= two_pow 1000)%Q) by (apply two_pow_mono; lia).
  destruct (round_rel D) as [Hr [Hr1 Hr2]]; [lra|lra|]. rewrite Hr.
  unfold fmul.
  set (y := round_pos D) in *.
  pose proof u_pos. pose proof u_small.
  assert (Hc3 : (two_pow (-1022) <= two_pow (-200) * (1 - unit_roundoff) * 100)%Q)
    by (vm_compute; discriminate).
  assert (Hc4 : (two_pow 200 * (1 + unit_roundoff) * 100 <= two_pow 1000)%Q)
    by (vm_compute; discriminate).
  assert (Hy1 : (two_pow (-200) * (1 - unit_roundoff) <= D * (1 - unit_roundoff))%Q)
    by (apply Qmult_le_compat_r; lra).
  assert (Hy2 : (D * (1 + unit_roundoff) <= two_pow 200 * (1 + unit_roundoff))%Q)
    by (apply Qmult_le_compat_r; lra).
  destruct (round_rel (y * 100)) as [Hs [Hs1 Hs2]]; [lra|lra|].
  rewrite Hs. eexists; split; [reflexivity|].
  cbn [qpow].
  assert (Hd : (0 <= D)%Q) by (pose proof (two_pow_pos (-200)); lra).
  split; nra.
Qed.

Lemma clamp_fin (mn mx p : Q) :
  (mn <= mx)%Q ->
  exists c, clamp_high (Fin mx) (clamp_low (Fin mn) (Fin p)) = Fin c /\ (mn <= c <= mx)%Q.
Proof.
  intros H. unfold clamp_low, clamp_high, flt.
  destruct (Qle_bool mn p) eqn:E1; cbn [negb].
  - apply Qle_bool_iff in E1.
    destruct (Qle_bool p mx) eqn:E2; cbn [negb].
    + apply Qle_bool_iff in E2. exists p. split; [reflexivity|lra].
    + exists mx. split; [reflexivity|lra].
  - assert (~ (mn <= p)%Q) by (intro C; apply Qle_bool_iff in C; congruence).
    destruct (Qle_bool mn mx) eqn:E2; cbn [negb].
    + exists mn. split; [reflexivity|lra].
    + apply Qle_bool_iff in H. congruence.
Qed.

Lemma map_fin (P : Q -> Prop) (R : Q -> Q -> Prop) (f : F -> F) (cs : list Q) :
  (forall c, P c -> exists r, f (Fin c) = Fin r /\ R c r) -> Forall P cs ->
  exists rs, map f (map Fin cs) = map Fin rs /\ Forall2 R cs rs.
Proof.
  intros Hf HP. induction HP as [|c cs Hc _ IH].
  - exists []. split; [reflexivity|constructor].
  - destruct (Hf c Hc) as [r [E Hr]]. destruct IH as [rs [E' Hrs]].
    exists (r :: rs). cbn [map]. rewrite E, E'. split; [reflexivity|constructor; assumption].
Qed.

Lemma Forall2_Forall_r {A B} (R : A -> B -> Prop) (P : B -> Prop) xs ys :
  (forall x y, R x y -> P y) -> Forall2 R xs ys -> Forall P ys.
Proof. intros H HR. induction HR; constructor; eauto. Qed.

Lemma Forall2_with_Forall {A B} (P : A -> Prop) (R : A -> B -> Prop) xs ys :
  Forall P xs -> Forall2 R xs ys -> Forall2 (fun x y => P x /\ R x y) xs ys.
Proof. intros HP HR. induction HR; inversion HP; subst; constructor; auto. Qed.

Lemma sumQ_rel (a b : Q) (cs rs : list Q) :
  Forall2 (fun c r => a * c <= r <= b * c)%Q cs rs ->
  (a * sumQ cs <= sumQ rs <= b * sumQ cs)%Q.
Proof.
  intros H. induction H as [|c r cs rs Hcr _ IH].
  - change (sumQ []) with 0%Q. lra.
  - change (sumQ (c :: cs)) with (c + sumQ cs)%Q.
    change (sumQ (r :: rs)) with (r + sumQ rs)%Q. lra.
Qed.

Lemma sumQ_range (lo hi : Q) (l : list Q) :
  Forall (fun c => lo <= c <= hi)%Q l ->
  (inject_Z (Z.of_nat (length l)) * lo <= sumQ l <= inject_Z (Z.of_nat (length l)) * hi)%Q.
Proof.
  intros H. induction H as [|c l Hc _ IH].
  - change (sumQ []) with 0%Q. cbn [length Z.of_nat]. change (inject_Z 0) with 0%Q. lra.
  - change (sumQ (c :: l)) with (c + sumQ l)%Q. cbn [length].
    rewrite Nat2Z.inj_succ, <- Z.add_1_r, inject_Z_plus. change (inject_Z 1) with 1%Q. lra.
Qed.

Lemma or_one_pos (T : Q) : (0 < T)%Q -> or_one (Fin T) = Fin T.
Proof.
  intros H. unfold or_one, ftruthy.
  destruct (Qeq_bool T 0) eqn:E; [apply Qeq_bool_iff in E; lra|reflexivity].
Qed.

Lemma len_pos {A} (l : list A) : l <> [] -> (1 <= inject_Z (Z.of_nat (length l)))%Q.
Proof.
  intros H. change 1%Q with (inject_Z 1). rewrite <- Zle_Qle.
  destruct l; [congruence|cbn [length]; lia].
Qed.

Lemma len_small {A} (l : list A) :
  Z.of_nat (length l) <= 1048576 -> (inject_Z (Z.of_nat (length l)) <= 1048576)%Q.
Proof. intros H. change 1048576%Q with (inject_Z 1048576). rewrite <- Zle_Qle. exact H. Qed.

(** The first normalisation and both clamping loops give finite values in
    the band. *)
Lemma clamped_pcts_fin (ws : list Q) (mn mx : Q) :
  ws <> [] -> Z.of_nat (length ws) <= 1048576 ->
  Forall (fun w => 1 <= w <= 18446744073709551616)%Q ws -> (mn <= mx)%Q ->
  exists cs, clamped_pcts (map Fin ws) (Fin mn) (Fin mx) = map Fin cs
    /\ length cs = length ws /\ Forall (fun c => mn <= c <= mx)%Q cs.
Proof.
  intros Hne Hn HF Hmm.
  pose proof (sumQ_range _ _ ws HF) as [HW1 HW2].
  pose proof (len_pos ws Hne) as HN1. pose proof (len_small ws Hn) as HN2.
  destruct (qpow_small _ Hn) as [Hu2 Hd2].
  pose proof (qpow_up_ge1 (length ws)) as Hu1.
  pose proof (qpow_dn_range (length ws)) as [Hd0 Hd1].
  set (N := inject_Z (Z.of_nat (length ws))) in *.
  set (W := sumQ ws) in *.
  set (Pu := qpow (1 + unit_roundoff) (length ws)) in *.
  set (Pd := qpow (1 - unit_roundoff) (length ws)) in *.
  assert (HW3 : (W <= 19342813113834066795298816)%Q).
  { assert (N * 18446744073709551616 <= 1048576 * 18446744073709551616)%Q
      by (apply Qmult_le_compat_r; lra). lra. }
  assert (HW4 : (1 <= W)%Q) by lra.
  destruct (fsum_rel ws 1 0 0 0) as [T [HT1 HT2]].
  - vm_compute. discriminate.
  - eapply Forall_impl; [|exact HF]. intros w Hw; apply Hw.
  - lra.
  - cbn [qpow]. lra.
  - rewrite Nat.add_0_l. fold Pu.
    assert (W * Pu <= 19342813113834066795298816 * Pu)%Q by (apply Qmult_le_compat_r; lra).
    assert (Hc : (19342813113834066795298816 * 2 <= two_pow 1000)%Q) by (vm_compute; discriminate).
    fold W. lra.
  - rewrite Nat.add_0_l in HT2. fold Pu Pd W in HT2.
    assert (HTlo : (1 # 2 <= T)%Q).
    { assert (1 * Pd <= W * Pd)%Q by (apply Qmult_le_compat_r; lra). lra. }
    assert (HThi : (T <= 38685626227668133590597632)%Q).
    { assert (W * Pu <= 19342813113834066795298816 * Pu)%Q by (apply Qmult_le_compat_r; lra).
      lra. }
    unfold clamped_pcts, py_sum. cbv zeta. rewrite HT1, (or_one_pos T) by lra.
    destruct (map_fin (fun w => 1 <= w <= 18446744073709551616)%Q (fun _ _ => True)
                (pct_of (Fin T)) ws) as [ps [Hps _]]; [|exact HF|].
    { intros w Hw.
      destruct (pct_of_rel T w) as [r [Hr _]]; [lra| |exists r; split; [exact Hr|exact I]].
      pose proof (two_pow_pos (-200)). pose proof (two_pow_pos 200).
      split.
      - apply Qle_shift_div_l; [lra|].
        assert (two_pow (-200) * T <= two_pow (-200) * 38685626227668133590597632)%Q.
        { rewrite !(Qmult_comm (two_pow (-200))). apply Qmult_le_compat_r; lra. }
        assert (two_pow (-200) * 38685626227668133590597632 <= 1)%Q by (vm_compute; discriminate).
        lra.
      - apply Qle_shift_div_r; [lra|].
        assert (two_pow 200 * (1 # 2) <= two_pow 200 * T)%Q.
        { rewrite !(Qmult_comm (two_pow 200)). apply Qmult_le_compat_r; lra. }
        assert (18446744073709551616 <= two_pow 200 * (1 # 2))%Q by (vm_compute; discriminate).
        lra. }
    rewrite Hps, map_map.
    destruct (map_fin (fun _ => True) (fun _ c => mn <= c <= mx)%Q
                (fun v => clamp_high (Fin mx) (clamp_low (Fin mn) v)) ps) as [cs [Hcs Hcs2]].
    { intros p _. apply clamp_fin. exact Hmm. }
    { apply Forall_forall. intros; exact I. }
    exists cs. split; [exact Hcs|]. split.
    + apply Forall2_length in Hcs2. rewrite <- Hcs2.
      apply (f_equal (@length F)) in Hps. rewrite !length_map in Hps. exact (eq_sym Hps).
    + eapply Forall2_Forall_r; [|exact Hcs2]. intros x y Hy; exact Hy.
Qed.

(** The renormalisation of in-band values: finite positive results whose
    exact sum is 100 up to the accumulated rounding. *)
Lemma renorm_rel (cs : list Q) (mn mx : Q) :
  cs <> [] -> Z.of_nat (length cs) <= 1048576 ->
  Forall (fun c => mn <= c <= mx)%Q cs ->
  (1 # 18446744073709551616 <= mn)%Q -> (mx <= 18446744073709551616)%Q ->
  exists rs, map (pct_of (or_one (py_sum (map Fin cs)))) (map Fin cs) = map Fin rs
    /\ Forall (fun r => 0 < r)%Q rs
    /\ (100 * qpow (1 - unit_roundoff) 2 / qpow (1 + unit_roundoff) (length cs) <= sumQ rs
        <= 100 * qpow (1 + unit_roundoff) 2 / qpow (1 - unit_roundoff) (length cs))%Q.
Proof.
  intros Hne Hn HF Hmn Hmx.
  pose proof (sumQ_range _ _ cs HF) as [HC1 HC2].
  pose proof (len_pos cs Hne) as HN1. pose proof (len_small cs Hn) as HN2.
  destruct (qpow_small _ Hn) as [Hu2 Hd2].
  pose proof (qpow_up_ge1 (length cs)) as Hu1.
  pose proof (qpow_dn_range (length cs)) as [Hd0 Hd1].
  pose proof u_pos as Hu. pose proof u_small as Hu'.
  set (N := inject_Z (Z.of_nat (length cs))) in *.
  set (C := sumQ cs) in *.
  set (Pu := qpow (1 + unit_roundoff) (length cs)) in *.
  set (Pd := qpow (1 - unit_roundoff) (length cs)) in *.
  assert (Hmn0 : (0 < mn)%Q) by (eapply Qlt_le_trans; [|exact Hmn]; reflexivity).
  assert (Hmm : (mn <= mx)%Q).
  { destruct cs as [|c0 cs0]; [congruence|]. inversion HF as [|? ? [H1 H2]]. lra. }
  assert (HC3 : (C <= 19342813113834066795298816)%Q).
  { assert (N * mx <= 1048576 * mx)%Q by (apply Qmult_le_compat_r; lra).
    assert (1048576 * mx <= 1048576 * 18446744073709551616)%Q by lra. lra. }
  assert (HC4 : (mn <= C)%Q).
  { assert (1 * mn <= N * mn)%Q by (apply Qmult_le_compat_r; lra). lra. }
  destruct (fsum_rel cs mn 0 0 0) as [T [HT1 HT2]].
  - eapply Qle_trans; [|exact Hmn]. vm_compute. discriminate.
  - eapply Forall_impl; [|exact HF]. intros w Hw; apply Hw.
  - lra.
  - cbn [qpow]. lra.
  - rewrite Nat.add_0_l. fold Pu C.
    assert (C * Pu <= 19342813113834066795298816 * Pu)%Q by (apply Qmult_le_compat_r; lra).
    assert (Hc : (19342813113834066795298816 * 2 <= two_pow 1000)%Q) by (vm_compute; discriminate).
    lra.
  - rewrite Nat.add_0_l in HT2. fold Pu Pd C in HT2.
    assert (HTlo : (mn * (1 # 2) <= T)%Q).
    { assert (mn * Pd <= C * Pd)%Q by (apply Qmult_le_compat_r; lra).
      assert (mn * (1 # 2) <= mn * Pd)%Q.
      { rewrite !(Qmult_comm mn). apply Qmult_le_compat_r; lra. }
      lra. }
    assert (HT0 : (0 < T)%Q) by nra.
    assert (HThi : (T <= 38685626227668133590597632)%Q).
    { assert (C * Pu <= 19342813113834066795298816 * Pu)%Q by (apply Qmult_le_compat_r; lra).
      lra. }
    unfold py_sum. rewrite HT1, (or_one_pos T HT0).
    set (P2d := qpow (1 - unit_roundoff) 2).
    set (P2u := qpow (1 + unit_roundoff) 2).
    assert (HP2d : (0 < P2d)%Q) by (unfold P2d; apply qpow_dn_range).
    assert (HP2u : (0 < P2u)%Q) by (unfold P2u; pose proof (qpow_up_ge1 2); lra).
    set (a := (100 * P2d / T)%Q). set (b := (100 * P2u / T)%Q).
    assert (Ha : (0 < a)%Q) by (unfold a; apply Qlt_shift_div_l; lra).
    destruct (map_fin (fun c => mn <= c <= mx)%Q (fun c r => a * c <= r <= b * c)%Q
                (pct_of (Fin T)) cs) as [rs [Hrs Hrs2]]; [|exact HF|].
    { intros c Hc.
      destruct (pct_of_rel T c HT0) as [r [Hr Hr2]].
      - pose proof (two_pow_pos (-200)). pose proof (two_pow_pos 200).
        split.
        + apply Qle_shift_div_l; [lra|].
          assert (two_pow (-200) * T <= two_pow (-200) * 38685626227668133590597632)%Q.
          { rewrite !(Qmult_comm (two_pow (-200))). apply Qmult_le_compat_r; lra. }
          assert (two_pow (-200) * 38685626227668133590597632 <= 1 # 18446744073709551616)%Q
            by (vm_compute; discriminate).
          lra.
        + apply Qle_shift_div_r; [lra|].
          assert (two_pow 200 * (1 # 36893488147419103232) <= two_pow 200 * T)%Q.
          { rewrite !(Qmult_comm (two_pow 200)). apply Qmult_le_compat_r; [|lra].
            assert ((1 # 18446744073709551616) * (1 # 2) <= mn * (1 # 2))%Q
              by (apply Qmult_le_compat_r; lra).
            assert ((1 # 36893488147419103232) == (1 # 18446744073709551616) * (1 # 2))%Q
              by reflexivity.
            lra. }
          assert (18446744073709551616 <= two_pow 200 * (1 # 36893488147419103232))%Q
            by (vm_compute; discriminate).
          lra.
      - exists r. split; [exact Hr|].
        fold P2d P2u in Hr2.
        assert (E1 : (c / T * 100 * P2d == a * c)%Q) by (unfold a; field; lra).
        assert (E2 : (c / T * 100 * P2u == b * c)%Q) by (unfold b; field; lra).
        rewrite E1, E2 in Hr2. exact Hr2. }
    exists rs. split; [exact Hrs|]. split.
    + eapply Forall2_Forall_r; [|exact (Forall2_with_Forall _ _ _ _ HF Hrs2)].
      intros c r [Hc Hcr]. cbv beta in *.
      assert (0 < a * c)%Q by (apply Qmult_lt_0_compat; lra). lra.
    + pose proof (sumQ_rel a b cs rs Hrs2) as [Hs1 Hs2]. fold C in Hs1, Hs2.
      split.
      * apply Qle_trans with (a * C)%Q; [|exact Hs1].
        assert (E : (a * C == 100 * P2d * C / T)%Q) by (unfold a; field; lra).
        rewrite E. apply Qle_shift_div_l; [exact HT0|].
        assert (E' : (100 * P2d / Pu * (C * Pu) == 100 * P2d * C)%Q) by (field; lra).
        rewrite <- E'. rewrite !(Qmult_comm (100 * P2d / Pu)).
        apply Qmult_le_compat_r; [lra|].
        apply Qle_shift_div_l; lra.
      * apply Qle_trans with (b * C)%Q; [exact Hs2|].
        assert (E : (b * C == 100 * P2u * C / T)%Q) by (unfold b; field; lra).
        rewrite E. apply Qle_shift_div_r; [exact HT0|].
        assert (E' : (100 * P2u / Pd * (C * Pd) == 100 * P2u * C)%Q) by (field; lra).
        rewrite <- E'. rewrite !(Qmult_comm (100 * P2u / Pd)).
        apply Qmult_le_compat_r; [lra|].
        apply Qle_shift_div_l; lra.
Qed.

(** C3 (corrected, in binary64): for 1 to [2^20] weights, each between 1
    and [2^64] (the caller's weights are at least 1.0), and a band
    [2^-64 <= min% <= max% <= 2^64], the clamping loops leave every value
    finite and within [min%, max%]; the returned percentages are finite,
    positive, one per weight, and their exact sum lies between
    [100 (1-u)^2 / (1+u)^n] and [100 (1+u)^2 / (1-u)^n], where [u = 2^-53]
    and [n] is the number of weights: 100 up to rounding, not exactly. *)
Theorem normalize_pcts_spec (ws : list Q) (mn mx : Q) :
  ws <> [] -> Z.of_nat (length ws) <= 1048576 ->
  Forall (fun w => 1 <= w <= 18446744073709551616)%Q ws ->
  (1 # 18446744073709551616 <= mn)%Q -> (mn <= mx)%Q -> (mx <= 18446744073709551616)%Q ->
  Forall (fun v => exists c, v = Fin c /\ (mn <= c <= mx)%Q)
         (clamped_pcts (map Fin ws) (Fin mn) (Fin mx))
  /\ exists rs, _normalize_pcts (map Fin ws) (Fin mn) (Fin mx) = map Fin rs
     /\ length rs = length ws
     /\ Forall (fun r => 0 < r)%Q rs
     /\ (100 * qpow (1 - unit_roundoff) 2 / qpow (1 + unit_roundoff) (length ws) <= sumQ rs
         <= 100 * qpow (1 + unit_roundoff) 2 / qpow (1 - unit_roundoff) (length ws))%Q.
Proof.
  intros Hne Hn HF Hmn Hmm Hmx.
  destruct (clamped_pcts_fin ws mn mx Hne Hn HF Hmm) as [cs [Hcs [Hlen Hband]]].
  split.
  - rewrite Hcs. apply Forall_map. eapply Forall_impl; [|exact Hband].
    intros c Hc. exists c. split; [reflexivity|exact Hc].
  - assert (Hne' : cs <> []) by (intro E; subst cs; destruct ws; [congruence|discriminate]).
    rewrite <- Hlen in Hn |- *.
    destruct (renorm_rel cs mn mx Hne' Hn Hband Hmn Hmx) as [rs [Hrs [Hpos Hsum]]].
    exists rs. unfold _normalize_pcts. cbv zeta. rewrite Hcs, Hrs.
    split; [reflexivity|]. split; [|split; assumption].
    apply (f_equal (@length F)) in Hrs. rewrite !length_map in Hrs. exact (eq_sym Hrs).
Qed.

Lemma normalize_pcts_spec_witness :
  Forall (fun v => exists c, v = Fin c /\ (8 <= c <= 45)%Q)
         (clamped_pcts (map Fin [3; 5; 8]%Q) (Fin 8) (Fin 45))
  /\ exists rs, _normalize_pcts (map Fin [3; 5; 8]%Q) (Fin 8) (Fin 45) = map Fin rs
     /\ length rs = length [3; 5; 8]%Q
     /\ Forall (fun r => 0 < r)%Q rs
     /\ (100 * qpow (1 - unit_roundoff) 2 / qpow (1 + unit_roundoff) (length [3; 5; 8]%Q) <= sumQ rs
         <= 100 * qpow (1 + unit_roundoff) 2 / qpow (1 - unit_roundoff) (length [3; 5; 8]%Q))%Q.
Proof.
  apply normalize_pcts_spec;
    [discriminate|vm_compute; discriminate|repeat constructor; vm_compute; discriminate
    |vm_compute; discriminate|vm_compute; discriminate|vm_compute; discriminate].
Defined.

(** C3 as stated fails twice. Weights 1, 1, 1 with the default band
    [8, 45] give three times 33.33333333333333, whose exact sum is not 100;
    Python's own [sum] of them is 99.99999999999999. Weights 1, 1, 100
    with the same band, where an in-band assignment summing to 100 exists
    (3*8 <= 100 <= 3*45), give the last column 73.77049180327869, above 45. *)
Lemma normalize_pcts_counterexample :
  (let rs := map fval (_normalize_pcts (map Fin [1; 1; 1]%Q) (Fin 8) (Fin 45)) in
   _normalize_pcts (map Fin [1; 1; 1]%Q) (Fin 8) (Fin 45) = map Fin rs
   /\ Forall (fun r => r == 2345624805922133 # 70368744177664)%Q rs
   /\ ~ (sumQ rs == 100)%Q
   /\ fval (py_sum (map Fin rs)) == 7036874417766399 # 70368744177664)%Q
  /\ (3 * 8 <= 100 <= 3 * 45)%Q
  /\ (let rs := map fval (_normalize_pcts (map Fin [1; 1; 100]%Q) (Fin 8) (Fin 45)) in
      _normalize_pcts (map Fin [1; 1; 100]%Q) (Fin 8) (Fin 45) = map Fin rs
      /\ nth 2 rs 0 == 5191136865565377 # 70368744177664
      /\ 45 < nth 2 rs 0)%Q.
Proof.
  split; [|split].
  - vm_compute. split; [reflexivity|]. split; [repeat constructor|]. split; [|reflexivity].
    discriminate.
  - split; vm_compute; discriminate.
  - vm_compute. split; [reflexivity|]. split; reflexivity.
Qed.

Example fmt_t1 : o_spacing (driver_format official_title) = LSExactly 28. Proof. reflexivity. Qed.
Example fmt_t2 : o_spacing (driver_format academic_body) = LSMultiple (3 # 2). Proof. reflexivity. Qed.
Example main_t1 : main [u "formatter.py"; u "a.docx"; u "b.docx"; u "--preset"; u "fancy"] None
  = [EPrint (u "Unknown preset: fancy"); EPrint (u "Available: official, academic, legal"); EExit 1].
Proof. reflexivity. Qed.
Example tbl_t1 :
  match table_rows_step [[[u "序号"]; [u "金额"]]; [[u "1"]; [u "1,234.50%"]]] with
  | Ok (Some ws, serial, visits) =>
      map (fun v => match v with Fin q => Some (Qred q) | _ => None end) ws
      = [Some (2857613976757929 # 70368744177664); Some (4179260441008471 # 70368744177664)]
      /\ serial = Some 0%nat
      /\ visits = [(0, 0, ACenter); (0, 1, ACenter); (1, 0, ACenter); (1, 1, ALeft)]%nat
  | _ => False
  end.
Proof. vm_compute. repeat split; reflexivity. Qed.

(** *** Line spacing *)

(** C4 as stated fails: the official preset's title spec has no
    [line_spacing] entry, and the paragraph gets an exact 28 pt spacing
    (the default [line_spacing_pt]), not a 1.5 multiple. *)
Lemma line_spacing_absent_counterexample :
  s_line_spacing official_title = None
  /\ o_spacing (driver_format official_title) = LSExactly 28
  /\ o_spacing (driver_format official_title) <> LSMultiple (3 # 2).
Proof. split; [reflexivity|]. split; [reflexivity|]. discriminate. Qed.

(** C4 (as the code has it): with the driver's call, a spec whose
    [line_spacing] is a non-zero number gets that exact spacing, a spec
    without the key gets exactly 28 pt, and a spec whose entry is [None]
    (or 0) gets a 1.5 multiple. *)
Theorem driver_line_spacing (fmt : StyleSpec) :
  o_spacing (driver_format fmt)
  = match s_line_spacing fmt with
    | None => LSExactly 28
    | Some None => LSMultiple (3 # 2)
    | Some (Some v) => if Qeq_bool v 0 then LSMultiple (3 # 2) else LSExactly v
    end.
Proof.
  unfold driver_format, format_paragraph_fmt, truthy. simpl.
  destruct (s_line_spacing fmt) as [[v|]|]; simpl; [|reflexivity|reflexivity].
  destruct (Qeq_bool v 0); reflexivity.
Qed.

(** *** Unknown preset names *)

(** C8 as stated fails on the listing: for an unknown name the message
    lists the built-in presets only, without "custom". *)
Lemma unknown_preset_listing_counterexample :
  format_document (u "in.docx") (u "out.docx") (u "fancy") None
  = [EPrint (u "Unknown preset: fancy"); EPrint (u "Available: official, academic, legal");
     EExit 1]
  /\ contains (u "Available: official, academic, legal") (u "custom") = false.
Proof. split; reflexivity. Qed.

(** C8 (as the code has it): a preset name outside official, academic,
    legal and custom makes [format_document] print the name and the
    built-in preset list and exit with code 1, before the input is loaded
    and with nothing saved. *)
Theorem unknown_preset_exits (input_path output_path name : text) (custom : option text) :
  existsb (text_eqb name) (u "custom" :: preset_keys) = false ->
  format_document input_path output_path name custom
  = [EPrint (u "Unknown preset: " ++ name); EPrint (u "Available: official, academic, legal");
     EExit 1]
  /\ exits_with 1 (format_document input_path output_path name custom)
  /\ loads (format_document input_path output_path name custom) = false
  /\ saves (format_document input_path output_path name custom) = false.
Proof.
  intros H. unfold preset_keys in H. cbn [existsb] in H. split_false.
  assert (E : format_document input_path output_path name custom
              = [EPrint (u "Unknown preset: " ++ name);
                 EPrint (u "Available: official, academic, legal"); EExit 1]).
  { unfold format_document, preset_keys. cbn [existsb]. rewrite_false. reflexivity. }
  rewrite E. repeat split.
Qed.

Lemma unknown_preset_exits_witness :
  main [u "formatter.py"; u "in.docx"; u "out.docx"; u "--preset"; u "fancy"] None
  = [EPrint (u "Unknown preset: fancy"); EPrint (u "Available: official, academic, legal");
     EExit 1]
  /\ loads (format_document (u "in.docx") (u "out.docx") (u "fancy") None) = false.
Proof.
  assert (H : existsb (text_eqb (u "fancy")) (u "custom" :: preset_keys) = false)
    by reflexivity.
  destruct (unknown_preset_exits (u "in.docx") (u "out.docx") (u "fancy") None H)
    as [E [_ [HL _]]].
  split; [exact E|exact HL].
Defined.

(** *** Tables without rows *)

(** C9: for a table with no rows, the column-width step returns without
    touching the table, no serial column is found, the per-cell loop visits
    no cell, and the row-level table step completes without raising. *)
Theorem zero_row_table_noop (min_pct max_pct : F) (serial : option nat) (short_len : nat) :
  _set_table_col_widths_by_content [] min_pct max_pct = Ok None
  /\ serial_col_idx [] = None
  /\ cell_visits [] serial short_len = []
  /\ table_rows_step [] = Ok (None, None, []).
Proof. repeat split. Qed.

(* ================================================================== *)
(** * Further properties of the code *)

(* ---------- regex: helpers only accept backslashes ---------- *)

Lemma rep_suffix (p : Z -> bool) (k : text -> bool) : forall s mn mx,
  rep p mn mx s k = true -> exists pre s', s = pre ++ s' /\ k s' = true.
Proof.
  induction s as [|c s IH]; intros mn mx H.
  - exists [], []. split; [reflexivity|].
    destruct mx as [[|n]|]; simpl in H; apply andb_true_iff in H; apply H.
  - assert (Hstop : (Nat.eqb mn 0 && k (c :: s)) = true ->
                    exists pre s', c :: s = pre ++ s' /\ k s' = true).
    { intros H1. apply andb_true_iff in H1 as [_ H1]. exists [], (c :: s). auto. }
    assert (Hgo : forall mn' mx', rep p mn' mx' s k = true ->
                  exists pre s', c :: s = pre ++ s' /\ k s' = true).
    { intros mn' mx' H1. destruct (IH _ _ H1) as (pre & s' & -> & Hk).
      exists (c :: pre), s'. auto. }
    destruct mx as [[|n]|]; simpl in H.
    + apply Hstop. exact H.
    + apply orb_true_iff in H as [H|H]; [|apply Hstop; exact H].
      apply andb_true_iff in H as [_ H]. eapply Hgo; exact H.
    + apply orb_true_iff in H as [H|H]; [|apply Hstop; exact H].
      apply andb_true_iff in H as [_ H]. eapply Hgo; exact H.
Qed.

Lemma eol_cont (s : text) (k : text -> bool) :
  match s with [] | [10] => k s | _ => false end = true -> k s = true.
Proof.
  intros H. destruct s as [|c t]; [exact H|].
  destruct c as [|p|p]; simpl in H; try discriminate;
    repeat (destruct p as [p|p|]; simpl in H; try discriminate);
    destruct t; simpl in H; try discriminate; exact H.
Qed.

Lemma mt_suffix : forall r s k, mt r s k = true -> exists pre s', s = pre ++ s' /\ k s' = true.
Proof.
  induction r; intros s k H; simpl in H.
  - destruct s as [|c s]; [discriminate|]. apply andb_true_iff in H as [_ H].
    exists [c], s. auto.
  - destruct (IHr1 _ _ H) as (p1 & s1 & -> & H1).
    destruct (IHr2 _ _ H1) as (p2 & s2 & -> & H2).
    exists (p1 ++ p2), s2. rewrite app_assoc. auto.
  - apply orb_true_iff in H as [H|H]; eauto.
  - eapply rep_suffix; eauto.
  - exists [], s. split; [reflexivity|]. apply eol_cont; exact H.
  - exists [], s. auto.
Qed.

Lemma mt_cat_ch (A X : re) (c : Z) (s : text) (k : text -> bool) :
  mt (Cat A (Cat (ch c) X)) s k = true -> In c s.
Proof.
  intros H. change (mt A s (fun s' => mt (Cat (ch c) X) s' k) = true) in H.
  destruct (mt_suffix _ _ _ H) as (pre & s1 & -> & H1).
  destruct s1 as [|d s1]; [discriminate|].
  simpl in H1. apply andb_true_iff in H1 as [E _]. apply Z.eqb_eq in E. subst d.
  apply in_or_app. right. left. reflexivity.
Qed.

Lemma In_lstrip (x : Z) (t : text) : In x (lstrip t) -> In x t.
Proof.
  induction t as [|c t IH]; simpl; [tauto|].
  destruct (is_space c); [intros H; right; auto|tauto].
Qed.

Lemma In_strip (x : Z) (t : text) : In x (strip t) -> In x t.
Proof.
  unfold strip. intros H. rewrite <- in_rev in H.
  apply In_lstrip in H. rewrite <- in_rev in H. apply In_lstrip in H. exact H.
Qed.

Lemma In_replace1 (x a : Z) (b t : text) : In x (replace1 a b t) -> In x b \/ In x t.
Proof.
  unfold replace1. intros H. apply in_flat_map in H as (c & Hc & Hx).
  destruct (c =? a); [left; exact Hx|]. destruct Hx as [->|[]]. right; exact Hc.
Qed.

(** [_is_numeric_text], [_is_table_title] and [_is_table_unit] accept only
    texts that contain a backslash: their raw patterns spell [\d] and [\s]
    as literal backslashes followed by letters. *)
Theorem table_helpers_need_backslash (t : text) :
  (_is_numeric_text t = true -> In 92 t)
  /\ (_is_table_title t = true -> In 92 t)
  /\ (_is_table_unit t = true -> In 92 t).
Proof.
  split; [|split].
  - unfold _is_numeric_text. intros H.
    destruct (strip _) as [|c cs] eqn:E; [discriminate|].
    unfold rmatch, numeric_re in H. cbn [cats] in H.
    apply mt_cat_ch in H. rewrite <- E in H. apply In_strip in H.
    apply In_replace1 in H as [[H|[]]|H]; [discriminate|].
    apply In_replace1 in H as [[]|H]. exact H.
  - unfold _is_table_title. intros H.
    destruct (strip t) as [|c cs] eqn:E; [discriminate|].
    apply andb_true_iff in H as [_ H].
    unfold rmatch, table_title_re in H. cbn [cats] in H.
    apply mt_cat_ch in H. rewrite <- E in H. apply In_strip in H. exact H.
  - unfold _is_table_unit. intros H.
    destruct (strip t) as [|c cs] eqn:E; [discriminate|].
    apply andb_true_iff in H as [_ H].
    unfold rmatch, table_unit_re in H. cbn [cats] in H.
    apply mt_cat_ch in H. rewrite <- E in H. apply In_strip in H. exact H.
Qed.

Lemma table_helpers_need_backslash_witness :
  _is_numeric_text (u "\d") = true /\ In 92 (u "\d").
Proof.
  assert (H : _is_numeric_text (u "\d") = true) by reflexivity.
  split; [exact H|exact (proj1 (table_helpers_need_backslash (u "\d")) H)].
Defined.

(* ---------- _text_weight ---------- *)

Lemma round_even_int (m : Q) (z : Z) : (m == inject_Z z)%Q -> round_even m = z.
Proof.
  destruct m as [a d]. unfold Qeq. cbn [Qnum Qden inject_Z]. rewrite Z.mul_1_r. intros H.
  unfold round_even. cbn [Qnum Qden].
  assert (Hq : a / Zpos d = z) by (symmetry; apply Z.div_unique_exact; [discriminate|lia]).
  assert (Hr : a mod Zpos d = 0) by (rewrite H; apply Z.mod_mul; discriminate).
  rewrite Hq, Hr. reflexivity.
Qed.

(** Half-integers below [2^52] are doubles: rounding leaves them alone. *)
Lemma round_half_exact (x : Q) (j : Z) :
  (x == inject_Z j * (1 # 2))%Q -> 0 < j < 2 ^ 53 ->
  exists y, round x = Fin y /\ (y == x)%Q.
Proof.
  intros Hx Hj.
  assert (Hj1 : (1 <= inject_Z j)%Q) by (change 1%Q with (inject_Z 1); rewrite <- Zle_Qle; lia).
  assert (Hj2 : (inject_Z j <= 9007199254740991)%Q)
    by (change 9007199254740991%Q with (inject_Z 9007199254740991); rewrite <- Zle_Qle; lia).
  assert (Hx0 : (0 < x)%Q) by lra.
  destruct (flog2_spec x Hx0) as [Hk1 Hk2].
  set (k := flog2 x) in *.
  assert (Hk52 : k < 52).
  { apply two_pow_mono_inv. apply Qle_lt_trans with x; [exact Hk1|].
    assert (two_pow 52 == 4503599627370496)%Q by reflexivity. lra. }
  assert (Hkm : -1 <= k).
  { assert (-1 < k + 1); [|lia]. apply two_pow_mono_inv.
    apply Qle_lt_trans with x; [|exact Hk2].
    assert (two_pow (-1) == 1 # 2)%Q by reflexivity. lra. }
  set (e := k - 52).
  assert (He : (two_pow e * two_pow (- e - 1) == 1 # 2)%Q).
  { rewrite <- two_pow_add. replace (e + (- e - 1)) with (-1) by ring. reflexivity. }
  assert (Hz : (x / two_pow e == inject_Z (j * 2 ^ (- e - 1)))%Q).
  { rewrite inject_Z_mult, <- two_pow_nat by (unfold e; lia). rewrite Hx, <- He.
    field. pose proof (two_pow_pos e). intro C. rewrite C in H. apply (Qlt_irrefl 0). exact H. }
  assert (Hrp : (round_pos x == x)%Q).
  { unfold round_pos. fold k. rewrite Z.max_l by lia. fold e.
    rewrite (round_even_int _ _ Hz), <- Hz. field.
    pose proof (two_pow_pos e). intro C. rewrite C in H. apply (Qlt_irrefl 0). exact H. }
  exists (round_pos x). split; [|exact Hrp].
  unfold round. apply Qgt_alt in Hx0. rewrite Hx0.
  destruct (Qle_bool (two_pow 1024) (round_pos x)) eqn:E; [|reflexivity].
  apply Qle_bool_iff in E. exfalso.
  assert (Hc : (4503599627370496 < two_pow 1024)%Q) by (vm_compute; reflexivity).
  lra.
Qed.

Lemma text_weight_fold (t : text) : forall (a : Q) (j : Z),
  (a == inject_Z j * (1 # 2))%Q -> 0 <= j -> j + 2 * Z.of_nat (length t) < 2 ^ 53 ->
  exists q, fold_left (fun w c => if c <? 128 then fadd w (Fin (1 # 2)) else fadd w (Fin 1)) t (Fin a)
            = Fin q /\ (q == a + weight_exact t)%Q.
Proof.
  induction t as [|c t IH]; intros a j Ha Hj Hlen.
  - exists a. split; [reflexivity|]. unfold weight_exact. cbn [filter length].
    change (inject_Z (Z.of_nat 0)) with 0%Q. ring.
  - cbn [length] in Hlen. rewrite Nat2Z.inj_succ in Hlen.
    cbn [fold_left].
    destruct (c <? 128) eqn:Ec.
    + destruct (round_half_exact (a + (1 # 2)) (j + 1)) as [y [Hy1 Hy2]];
        [rewrite Ha, inject_Z_plus; change (inject_Z 1) with 1%Q; ring|lia|].
      change (fadd (Fin a) (Fin (1 # 2))) with (round (a + (1 # 2))). rewrite Hy1.
      destruct (IH y (j + 1)) as [q [Hq1 Hq2]];
        [rewrite Hy2, Ha, inject_Z_plus; change (inject_Z 1) with 1%Q; ring|lia|lia|].
      exists q. split; [exact Hq1|]. rewrite Hq2, Hy2.
      unfold weight_exact. cbn [filter]. rewrite Ec. cbn [negb length].
      rewrite Nat2Z.inj_succ, <- Z.add_1_r, inject_Z_plus. change (inject_Z 1) with 1%Q. ring.
    + destruct (round_half_exact (a + 1) (j + 2)) as [y [Hy1 Hy2]];
        [rewrite Ha, inject_Z_plus; change (inject_Z 2) with 2%Q; ring|lia|].
      change (fadd (Fin a) (Fin 1)) with (round (a + 1)). rewrite Hy1.
      destruct (IH y (j + 2)) as [q [Hq1 Hq2]];
        [rewrite Hy2, Ha, inject_Z_plus; change (inject_Z 2) with 2%Q; ring|lia|lia|].
      exists q. split; [exact Hq1|]. rewrite Hq2, Hy2.
      unfold weight_exact. cbn [filter]. rewrite Ec. cbn [negb length].
      rewrite Nat2Z.inj_succ, <- Z.add_1_r, inject_Z_plus. change (inject_Z 1) with 1%Q. ring.
Qed.

(** For texts shorter than [2^52] characters, the float sum in
    [_text_weight] is exact: half a unit per ASCII character plus one per
    other character. *)
Theorem text_weight_counts (t : text) :
  Z.of_nat (length t) < 2 ^ 52 ->
  exists q, _text_weight t = Fin q
    /\ (q == inject_Z (Z.of_nat (length (filter (fun c => c <? 128) t))) * (1 # 2)
             + inject_Z (Z.of_nat (length (filter (fun c => negb (c <? 128)) t))))%Q.
Proof.
  intros H. destruct (text_weight_fold t 0 0) as [q [Hq1 Hq2]]; [reflexivity|lia|lia|].
  exists q. split; [exact Hq1|]. rewrite Hq2. unfold weight_exact. ring.
Qed.

Lemma text_weight_counts_witness :
  exists q, _text_weight (u "合计 10") = Fin q
    /\ (q == inject_Z (Z.of_nat (length (filter (fun c => c <? 128) (u "合计 10")))) * (1 # 2)
             + inject_Z (Z.of_nat (length (filter (fun c => negb (c <? 128)) (u "合计 10")))))%Q.
Proof. apply text_weight_counts. vm_compute. reflexivity. Defined.

(* ---------- column widths never raise ---------- *)

Lemma set_nth_ok {A} (xs : list A) (i : nat) (v : A) :
  (i < length xs)%nat -> exists ys, set_nth xs i v = Ok ys /\ length ys = length xs.
Proof.
  intros H. unfold set_nth. rewrite (proj2 (Nat.ltb_lt _ _) H).
  eexists; split; [reflexivity|].
  rewrite length_app, length_firstn. cbn [length]. rewrite length_skipn. lia.
Qed.

Lemma update_weights_ok (cells : Row) : forall ws c_idx,
  (c_idx + length cells <= length ws)%nat ->
  exists ws', update_weights ws c_idx cells = Ok ws' /\ length ws' = length ws.
Proof.
  induction cells as [|c cs IH]; intros ws c_idx H; simpl in H |- *; [eauto|].
  destruct (cell_text c) as [|x xs].
  - apply IH. lia.
  - destruct (nth_error ws c_idx) as [w|] eqn:En; [|apply nth_error_None in En; lia].
    destruct (set_nth_ok ws c_idx
                (if flt w (_text_weight (x :: xs)) then _text_weight (x :: xs) else w))
      as (ys & -> & Hl); [lia|].
    destruct (IH ys (S c_idx)) as (ws' & -> & Hl'); [lia|].
    exists ws'. split; [reflexivity|congruence].
Qed.

Lemma weights_of_rows_ok (rows : list Row) : forall ws,
  Forall (fun r : Row => (length r <= length ws)%nat) rows ->
  exists ws', weights_of_rows ws rows = Ok ws' /\ length ws' = length ws.
Proof.
  induction rows as [|r rs IH]; intros ws HF; simpl; [eauto|].
  inversion HF; subst.
  destruct (update_weights_ok r ws 0) as (ws1 & -> & Hl1); [simpl; lia|].
  destruct (IH ws1) as (ws2 & -> & Hl2).
  - eapply Forall_impl; [|eassumption]. intros r' Hr'. cbv beta in Hr'. lia.
  - exists ws2. split; [reflexivity|congruence].
Qed.

Lemma fold_max_right (l : list nat) : forall x,
  fold_left Nat.max l x = Nat.max x (fold_right Nat.max 0%nat l).
Proof.
  induction l as [|y l IH]; intros x; simpl; [lia|]. rewrite IH. lia.
Qed.

Lemma rows_le_max (rows : list Row) :
  Forall (fun r : Row => (length r <= fold_right Nat.max 0 (map (@length Cell) rows))%nat) rows.
Proof.
  induction rows as [|r rs IH]; simpl; constructor; [lia|].
  eapply Forall_impl; [|exact IH]. intros r' H. cbv beta in H |- *. lia.
Qed.



(* ---------- detect_para_type guards ---------- *)

Ltac and_facts :=
  repeat match goal with
         | H : _ && _ = true |- _ => apply andb_true_iff in H; destruct H
         end.

(** Each positional or length guard of [detect_para_type] holds whenever
    the corresponding role is returned. *)
Theorem detect_para_type_guards (t : text) (i n : Z) (a : option Align) (l : list text) :
  (detect_para_type t i n a l = title -> i < 5)
  /\ (detect_para_type t i n a l = signature ->
      n - 10 <= i /\ Z.of_nat (length (strip t)) < 30)
  /\ (detect_para_type t i n a l = heading3 -> Z.of_nat (length (strip t)) < 60)
  /\ (detect_para_type t i n a l = heading4 -> Z.of_nat (length (strip t)) < 60)
  /\ (detect_para_type t i n a l = recipient -> Z.of_nat (length (strip t)) < 20).
Proof.
  refine (conj _ (conj _ (conj _ (conj _ _))));
  destruct (strip t) as [|c cs] eqn:E;
  unfold detect_para_type; cbv zeta; rewrite E; try discriminate;
  case_ifs; intros Hd; try discriminate; and_facts;
    repeat match goal with
           | H : (_ <? _) = true |- _ => apply Z.ltb_lt in H
           | H : (_ <=? _) = true |- _ => apply Z.leb_le in H
           end; lia.
Qed.

(** When one of the rules checked before the context-dependent ones fires,
    the role does not depend on the index, count, alignment or the other
    texts. *)
Theorem detect_para_type_context_free (t : text) (i n i' n' : Z) (a a' : option Align)
        (l l' : list text) :
  earlier_rules_fire (strip t) = true ->
  detect_para_type t i n a l = detect_para_type t i' n' a' l'.
Proof.
  intros H. unfold earlier_rules_fire, earlier_rules in H. cbv zeta in H.
  cbn [existsb fst] in H.
  unfold detect_para_type. cbv zeta.
  destruct (strip t) as [|c cs] eqn:E; [discriminate|].
  case_ifs; try reflexivity; exfalso; revert H; rewrite_false; discriminate.
Qed.

Lemma detect_para_type_context_free_witness :
  earlier_rules_fire (strip (u "一、概述")) = true
  /\ detect_para_type (u "一、概述") 0 1 (Some ACenter) [] = detect_para_type (u "一、概述") 40 50 None [].
Proof.
  assert (H : earlier_rules_fire (strip (u "一、概述")) = true) by reflexivity.
  split; [exact H|exact (detect_para_type_context_free _ 0 1 40 50 (Some ACenter) None [] [] H)].
Defined.

(* ---------- strip ---------- *)

Lemma lstrip_suffix (t : text) : exists p, t = p ++ lstrip t /\ forallb is_space p = true.
Proof.
  induction t as [|c t IH]; [exists []; auto|]. simpl.
  destruct (is_space c) eqn:Ec.
  - destruct IH as (p & Hp & Hs). exists (c :: p). simpl. rewrite Ec, <- Hp. auto.
  - exists []. auto.
Qed.

Lemma lstrip_head (t : text) :
  match lstrip t with [] => True | c :: _ => is_space c = false end.
Proof.
  induction t as [|c t IH]; simpl; [exact I|].
  destruct (is_space c) eqn:Ec; [exact IH|exact Ec].
Qed.

Lemma lstrip_nonspace (c : Z) (r : text) : is_space c = false -> lstrip (c :: r) = c :: r.
Proof. intros H. simpl. rewrite H. reflexivity. Qed.

Lemma rev_last (l : list Z) : l <> [] -> exists r, rev l = last l 0 :: r.
Proof.
  intros H. destruct (exists_last H) as (l' & x & ->).
  rewrite rev_unit, last_last. eauto.
Qed.

(** A stripped text starts and ends with a non-space character. *)
Lemma strip_ends (t : text) :
  match strip t with
  | [] => True
  | c :: r => is_space c = false /\ is_space (last (c :: r) 0) = false
  end.
Proof.
  unfold strip.
  destruct (lstrip_suffix (rev (lstrip t))) as (p & Hp & _).
  assert (Hy := lstrip_head t).
  assert (Hz := lstrip_head (rev (lstrip t))).
  destruct (lstrip (rev (lstrip t))) as [|z zs] eqn:Ez; [exact I|].
  destruct (rev (z :: zs)) as [|c r] eqn:Er; [exact I|].
  split.
  - (* the first character of [rev z] is the first of [lstrip t] *)
    assert (Hyz : lstrip t = rev (z :: zs) ++ rev p).
    { rewrite <- rev_app_distr, <- Hp, rev_involutive. reflexivity. }
    rewrite Er in Hyz. rewrite Hyz in Hy. exact Hy.
  - rewrite <- Er. simpl rev. rewrite last_last. exact Hz.
Qed.

Lemma strip_id (c : Z) (r : text) :
  is_space c = false -> is_space (last (c :: r) 0) = false -> strip (c :: r) = c :: r.
Proof.
  intros H1 H2. unfold strip. rewrite lstrip_nonspace by exact H1.
  destruct (rev_last (c :: r)) as (r' & Hr); [discriminate|].
  rewrite Hr. rewrite lstrip_nonspace by exact H2. rewrite <- Hr. apply rev_involutive.
Qed.

Lemma strip_idem (t : text) : strip (strip t) = strip t.
Proof.
  assert (H := strip_ends t). destruct (strip t) as [|c r]; [reflexivity|].
  destruct H as [H1 H2]. apply strip_id; assumption.
Qed.

(* ---------- the classification pass ---------- *)

Lemma classify_from_nth (ps : list Para) : forall i n all k,
  nth_error (classify_from i ps n all) k
  = option_map (fun p => if is_blank (p_text p) then None
                         else Some (detect_para_type (strip (p_text p)) (Z.of_nat (i + k)) n
                                      (p_align p) all))
               (nth_error ps k).
Proof.
  induction ps as [|p ps IH]; intros i n all k; [destruct k; reflexivity|].
  destruct k as [|k]; simpl.
  - rewrite Nat.add_0_r. reflexivity.
  - rewrite IH. replace (S i + k)%nat with (i + S k)%nat by lia. reflexivity.
Qed.

Lemma length_classify_from (ps : list Para) : forall i n all,
  length (classify_from i ps n all) = length ps.
Proof. induction ps; intros; simpl; [reflexivity|rewrite IHps; reflexivity]. Qed.

(** The classification pass gives one entry per paragraph: [None] exactly
    for blank paragraphs, and never the role [empty]. *)
Theorem classify_document_shape (ps : list Para) :
  length (classify_document ps) = length ps
  /\ forall k p, nth_error ps k = Some p ->
     (nth_error (classify_document ps) k = Some None <-> is_blank (p_text p) = true)
     /\ nth_error (classify_document ps) k <> Some (Some empty).
Proof.
  split; [apply length_classify_from|].
  intros k p Hk. unfold classify_document. rewrite classify_from_nth, Hk. simpl.
  destruct (is_blank (p_text p)) eqn:Eb.
  - split; [tauto|discriminate].
  - split; [split; discriminate|].
    intros Hc. injection Hc as Hc. revert Hc. apply detect_nonempty_not_empty.
    rewrite strip_idem. unfold is_blank in Eb. destruct (strip (p_text p)); congruence.
Qed.

Lemma classify_document_shape_witness :
  nth_error [mkPara (u "一、概述") None; mkPara (u " ") None] 1%nat = Some (mkPara (u " ") None)
  /\ (nth_error (classify_document [mkPara (u "一、概述") None; mkPara (u " ") None]) 1
      = Some None <-> is_blank (u " ") = true).
Proof.
  split; [reflexivity|].
  exact (proj1 (proj2 (classify_document_shape [mkPara (u "一、概述") None; mkPara (u " ") None])
                 1%nat (mkPara (u " ") None) eq_refl)).
Defined.

(* ---------- the command line ---------- *)


(* ---------- the heading splitter ---------- *)

Lemma find_range (t : text) (c : Z) : find t c = -1 \/ 0 <= find t c < Z.of_nat (length t).
Proof.
  induction t as [|x t IH]; simpl; [left; reflexivity|].
  destruct (x =? c); [right; lia|].
  destruct (find t c =? -1) eqn:E; [left; reflexivity|].
  apply Z.eqb_neq in E. right. destruct IH as [IH|IH]; [congruence|lia].
Qed.

Lemma find_nth (t : text) (c : Z) : find t c <> -1 -> nth (Z.to_nat (find t c)) t 0 = c.
Proof.
  induction t as [|x t IH]; simpl; [congruence|].
  destruct (x =? c) eqn:Ex; [intros _; apply Z.eqb_eq in Ex; exact Ex|].
  destruct (find t c =? -1) eqn:E; [congruence|]. apply Z.eqb_neq in E. intros _.
  destruct (find_range t c) as [H|H]; [congruence|].
  replace (Z.to_nat (find t c + 1)) with (S (Z.to_nat (find t c))) by lia.
  apply IH. exact E.
Qed.

Ltac zbools :=
  repeat match goal with
         | H : (_ =? _) = true |- _ => apply Z.eqb_eq in H
         | H : (_ =? _) = false |- _ => apply Z.eqb_neq in H
         | H : (_ <=? _) = true |- _ => apply Z.leb_le in H
         | H : (_ <=? _) = false |- _ => apply Z.leb_gt in H
         | H : (_ <? _) = true |- _ => apply Z.ltb_lt in H
         | H : (_ <? _) = false |- _ => apply Z.ltb_ge in H
         | H : _ || _ = true |- _ => apply orb_true_iff in H; destruct H
         | H : _ || _ = false |- _ => apply orb_false_split in H; destruct H
         | H : _ && _ = true |- _ => apply andb_true_iff in H; destruct H
         end.

Lemma find_firstn (t : text) (c : Z) : forall n,
  find (firstn n t) c
  = if (find t c =? -1) || (Z.of_nat n <=? find t c) then -1 else find t c.
Proof.
  induction t as [|x t IH]; intros n.
  - rewrite firstn_nil. reflexivity.
  - destruct n as [|m].
    + simpl firstn. cbn [find].
      destruct (find_range (x :: t) c) as [H|H]; cbn [find] in H;
        destruct ((if x =? c then 0 else _) =? -1) eqn:E1; simpl; try reflexivity;
        [apply Z.eqb_neq in E1; congruence|].
      replace (0 <=? _) with true by (symmetry; apply Z.leb_le; lia). reflexivity.
    + simpl firstn. cbn [find]. destruct (x =? c); [simpl; lia|].
      rewrite IH. destruct (find_range t c) as [H|H]; [rewrite H; reflexivity|].
      assert (Hn : (find t c =? -1) = false) by (apply Z.eqb_neq; lia).
      rewrite Hn. destruct (Z.of_nat m <=? find t c) eqn:E2; cbn [orb]; case_ifs; zbools; lia.
Qed.

Lemma fold_min_in (ps : list Z) : forall p, In (fold_left Z.min ps p) (p :: ps).
Proof.
  induction ps as [|q ps IH]; intros p; simpl; [left; reflexivity|].
  destruct (IH (Z.min p q)) as [H|H].
  - rewrite <- H. destruct (Z.min_spec p q) as [[_ ->]|[_ ->]]; simpl; auto.
  - right; right; exact H.
Qed.

Lemma fold_min_le (ps : list Z) : forall p x, In x (p :: ps) -> fold_left Z.min ps p <= x.
Proof.
  induction ps as [|q ps IH]; intros p x Hx; simpl in *.
  - destruct Hx as [->|[]]. lia.
  - destruct Hx as [->|[->|Hx]].
    + assert (fold_left Z.min ps (Z.min x q) <= Z.min x q) by (apply IH; left; reflexivity). lia.
    + assert (fold_left Z.min ps (Z.min p x) <= Z.min p x) by (apply IH; left; reflexivity). lia.
    + apply IH. right. exact Hx.
Qed.

Lemma fold_min_ge (ps : list Z) (k : Z) : forall p,
  (forall x, In x (p :: ps) -> k <= x) -> k <= fold_left Z.min ps p.
Proof. intros p H. apply H. apply fold_min_in. Qed.

Lemma punct_positions_in (t : text) (x : Z) :
  In x (punct_positions t) <-> exists q, In q split_puncts /\ find t q = x /\ x <> -1.
Proof.
  unfold punct_positions, split_puncts. rewrite filter_In, in_map_iff.
  split.
  - intros [(q & Hq & Hin) Hx]. exists q. apply negb_true_iff, Z.eqb_neq in Hx. auto.
  - intros (q & Hin & Hq & Hx). split; [eauto|]. apply negb_true_iff, Z.eqb_neq. exact Hx.
Qed.

Lemma split_index_spec (t : text) (k : Z) :
  split_index t = Some k ->
  In k (punct_positions t) /\ forall x, In x (punct_positions t) -> k <= x.
Proof.
  unfold split_index. destruct (punct_positions t) as [|p ps]; [discriminate|].
  intros H. injection H as <-. split; [apply fold_min_in|]. intros x Hx. apply fold_min_le. exact Hx.
Qed.

Lemma last_firstn (l : list Z) : forall n, (n < length l)%nat ->
  last (firstn (S n) l) 0 = nth n l 0.
Proof.
  induction l as [|x l IH]; intros n H; simpl in H; [lia|].
  destruct n as [|n]; [reflexivity|].
  change (nth (S n) (x :: l) 0) with (nth n l 0).
  rewrite <- IH by lia.
  destruct l as [|y l]; [simpl in H; lia|]. reflexivity.
Qed.

Lemma last_app_ne (l1 l2 : list Z) : l2 <> [] -> last (l1 ++ l2) 0 = last l2 0.
Proof.
  intros H. induction l1 as [|a l1 IH]; [reflexivity|]. rewrite <- IH. simpl.
  destruct (l1 ++ l2) eqn:E; [destruct l1, l2; simpl in E; congruence|reflexivity].
Qed.

(** The suffix of a stripped text loses only its leading whitespace to [strip]. *)
Lemma strip_skipn_stripped (s : text) (n : nat) :
  strip (skipn n (strip s)) = lstrip (skipn n (strip s)).
Proof.
  assert (Hends := strip_ends s).
  destruct (lstrip_suffix (skipn n (strip s))) as (p & Hp & _).
  unfold strip at 1. destruct (lstrip (skipn n (strip s))) as [|z zs] eqn:Ez; [reflexivity|].
  assert (Ht : strip s = (firstn n (strip s) ++ p) ++ z :: zs).
  { rewrite <- app_assoc, <- Hp. symmetry. apply firstn_skipn. }
  destruct (rev_last (z :: zs)) as (r & Hr); [discriminate|].
  rewrite Hr, lstrip_nonspace, <- Hr, rev_involutive; [reflexivity|].
  destruct (strip s) as [|c cs]; [destruct (firstn n []), p; discriminate|].
  destruct Hends as [_ Hl]. rewrite Ht in Hl. rewrite last_app_ne in Hl by discriminate. exact Hl.
Qed.

(** A split of [_split_heading_by_punct] cuts the stripped text: the head is
    a prefix, the tail the rest without leading spaces and non-empty, and
    the head is not split again. *)
Theorem split_heading_head_tail (p h tl : Para) :
  _split_heading_by_punct p = Some (h, tl) ->
  exists k, p_text h = firstn k (strip (p_text p))
            /\ p_text tl = lstrip (skipn k (strip (p_text p)))
            /\ p_text tl <> []
            /\ _split_heading_by_punct h = None.
Proof.
  intros H. unfold _split_heading_by_punct in H.
  assert (Hends := strip_ends (p_text p)).
  assert (Hsk := strip_skipn_stripped (p_text p)).
  destruct (strip (p_text p)) as [|c cs] eqn:E; [discriminate|].
  destruct (negb (any_match heading_prefix_patterns (c :: cs))); [discriminate|].
  destruct (split_index (c :: cs)) as [k|] eqn:Ek; [|discriminate].
  destruct (strip (skipn (Z.to_nat (k + 1)) (c :: cs))) as [|x xs] eqn:Et; [discriminate|].
  injection H as <- <-. simpl p_text.
  destruct (split_index_spec _ _ Ek) as [Hkin Hkmin].
  destruct (proj1 (punct_positions_in _ _) Hkin) as (q & Hq & Hfq & Hk1).
  destruct (find_range (c :: cs) q) as [Hr|Hr]; [congruence|]. rewrite Hfq in Hr.
  assert (Hnth : nth (Z.to_nat k) (c :: cs) 0 = q) by (rewrite <- Hfq; apply find_nth; congruence).
  assert (Hq_ns : is_space q = false)
    by (unfold split_puncts in Hq; simpl in Hq; destruct Hq as [<-|[<-|[<-|[]]]]; reflexivity).
  replace (Z.to_nat (k + 1)) with (S (Z.to_nat k)) in * by lia.
  set (hd := firstn (S (Z.to_nat k)) (c :: cs)).
  assert (Hhd : strip hd = hd).
  { unfold hd. cbn [firstn]. apply strip_id; [apply Hends|].
    change (c :: firstn (Z.to_nat k) cs) with (firstn (S (Z.to_nat k)) (c :: cs)).
    rewrite last_firstn by lia. rewrite Hnth. exact Hq_ns. }
  exists (S (Z.to_nat k)). split; [rewrite Hhd; reflexivity|].
  split; [rewrite <- Et; apply Hsk|]. split; [discriminate|].
  unfold _split_heading_by_punct. cbv zeta. cbn [p_text]. rewrite !Hhd.
  assert (Hlen : length hd = S (Z.to_nat k)) by (unfold hd; rewrite length_firstn; lia).
  destruct hd as [|y ys] eqn:Ehd; [discriminate|].
  destruct (negb _); [reflexivity|].
  destruct (split_index (y :: ys)) as [k'|] eqn:Ek'; [|reflexivity].
  assert (Hkk : k <= k').
  { destruct (split_index_spec _ _ Ek') as [Hin _].
    destruct (proj1 (punct_positions_in _ _) Hin) as (q' & Hq' & Hf' & Hne').
    rewrite <- Ehd in Hf'. unfold hd in Hf'. rewrite find_firstn in Hf'.
    destruct ((find (c :: cs) q' =? -1) || (Z.of_nat (S (Z.to_nat k)) <=? find (c :: cs) q'));
      [congruence|].
    apply Hkmin. apply punct_positions_in. exists q'. split; [exact Hq'|split; [exact Hf'|exact Hne']]. }
  rewrite skipn_all2 by (rewrite Hlen; lia). reflexivity.
Qed.

Lemma split_heading_head_tail_witness :
  _split_heading_by_punct (mkPara (u "（三）工作要求：各单位要高度重视。") (Some AJustify))
    = Some (mkPara (u "（三）工作要求：") (Some AJustify), mkPara (u "各单位要高度重视。") None)
  /\ exists k,
    p_text (mkPara (u "（三）工作要求：") (Some AJustify))
      = firstn k (strip (p_text (mkPara (u "（三）工作要求：各单位要高度重视。") (Some AJustify))))
    /\ p_text (mkPara (u "各单位要高度重视。") None)
      = lstrip (skipn k (strip (p_text (mkPara (u "（三）工作要求：各单位要高度重视。") (Some AJustify)))))
    /\ p_text (mkPara (u "各单位要高度重视。") None) <> []
    /\ _split_heading_by_punct (mkPara (u "（三）工作要求：") (Some AJustify)) = None.
Proof.
  assert (H : _split_heading_by_punct (mkPara (u "（三）工作要求：各单位要高度重视。") (Some AJustify))
              = Some (mkPara (u "（三）工作要求：") (Some AJustify), mkPara (u "各单位要高度重视。") None))
    by (vm_compute; reflexivity).
  split; [exact H|]. exact (split_heading_head_tail _ _ _ H).
Defined.

(* ---------- widths written to the grid ---------- *)

Lemma filter_split_length (p : Z -> bool) (t : text) :
  (length (filter p t) + length (filter (fun c => negb (p c)) t))%nat = length t.
Proof.
  induction t as [|c t IH]; [reflexivity|]. cbn [filter length].
  destruct (p c); cbn [negb length]; lia.
Qed.

Lemma text_weight_bound (t : text) :
  Z.of_nat (length t) < 2 ^ 52 ->
  exists q, _text_weight t = Fin q /\ (0 <= q <= inject_Z (Z.of_nat (length t)))%Q.
Proof.
  intros H. destruct (text_weight_fold t 0 0) as [q [Hq1 Hq2]]; [reflexivity|lia|lia|].
  exists q. split; [exact Hq1|]. rewrite Hq2. unfold weight_exact.
  rewrite <- (filter_split_length (fun c => c <? 128) t), Nat2Z.inj_add, inject_Z_plus.
  set (a := inject_Z (Z.of_nat (length (filter (fun c => c <? 128) t)))).
  set (b := inject_Z (Z.of_nat (length (filter (fun c => negb (c <? 128)) t)))).
  assert (0 <= a)%Q by (unfold a; change 0%Q with (inject_Z 0); rewrite <- Zle_Qle; lia).
  assert (0 <= b)%Q by (unfold b; change 0%Q with (inject_Z 0); rewrite <- Zle_Qle; lia).
  lra.
Qed.

Lemma Forall_firstn' {A} (P : A -> Prop) (n : nat) (l : list A) :
  Forall P l -> Forall P (firstn n l).
Proof.
  revert l. induction n as [|n IH]; intros l H; [constructor|].
  destruct H; cbn [firstn]; constructor; auto.
Qed.

Lemma Forall_skipn' {A} (P : A -> Prop) (n : nat) (l : list A) :
  Forall P l -> Forall P (skipn n l).
Proof.
  revert l. induction n as [|n IH]; intros l H; [exact H|].
  destruct H; cbn [skipn]; [constructor|auto].
Qed.

Lemma set_nth_Forall {A} (P : A -> Prop) (xs ys : list A) (i : nat) (v : A) :
  Forall P xs -> P v -> set_nth xs i v = Ok ys -> Forall P ys.
Proof.
  intros Hx Hv. unfold set_nth. destruct (i <? length xs)%nat; [|discriminate].
  intros E. injection E as <-. apply Forall_app. split; [apply Forall_firstn'; exact Hx|].
  constructor; [exact Hv|apply (Forall_skipn' P (S i)); exact Hx].
Qed.

Lemma update_weights_fin (cells : Row) : forall ws c_idx ws',
  Forall (fun c => Z.of_nat (length (cell_text c)) < 2 ^ 52) cells ->
  Forall weight_ok ws -> update_weights ws c_idx cells = Ok ws' -> Forall weight_ok ws'.
Proof.
  induction cells as [|c cs IH]; intros ws c_idx ws' Hc Hw; cbn [update_weights].
  - intros E. injection E as <-. exact Hw.
  - inversion Hc as [|? ? Hc1 Hcs]; subst.
    destruct (cell_text c) as [|x xs] eqn:Et; [apply IH; assumption|].
    destruct (nth_error ws c_idx) as [w|] eqn:En; [|discriminate].
    assert (Hw0 : weight_ok w).
    { apply nth_error_In in En. rewrite Forall_forall in Hw. exact (Hw _ En). }
    set (w' := if flt w (_text_weight (x :: xs)) then _text_weight (x :: xs) else w).
    assert (Hw' : weight_ok w').
    { unfold w'. destruct (flt w (_text_weight (x :: xs))) eqn:El; [|exact Hw0].
      destruct (text_weight_bound (x :: xs) Hc1) as [q [Hq1 Hq2]].
      destruct Hw0 as [a [-> Ha]]. rewrite Hq1 in El |- *. unfold flt in El.
      destruct (Qle_bool q a) eqn:E; [discriminate|].
      assert (~ (q <= a)%Q) by (intro C; apply Qle_bool_iff in C; congruence).
      assert (Hl : (inject_Z (Z.of_nat (length (x :: xs))) <= 4503599627370496)%Q)
        by (change 4503599627370496%Q with (inject_Z 4503599627370496);
            rewrite <- Zle_Qle; lia).
      exists q. split; [reflexivity|lra]. }
    destruct (set_nth ws c_idx w') as [ys|m] eqn:Es; [|discriminate].
    apply IH; [exact Hcs|]. exact (set_nth_Forall _ _ _ _ _ Hw Hw' Es).
Qed.

Lemma weights_of_rows_fin (rows : list Row) : forall ws ws',
  Forall (Forall (fun c => Z.of_nat (length (cell_text c)) < 2 ^ 52)) rows ->
  Forall weight_ok ws -> weights_of_rows ws rows = Ok ws' -> Forall weight_ok ws'.
Proof.
  induction rows as [|r rs IH]; intros ws ws' Hr Hw; cbn [weights_of_rows].
  - intros E. injection E as <-. exact Hw.
  - inversion Hr; subst.
    destruct (update_weights ws 0 r) as [ws1|m] eqn:E1; [|discriminate].
    apply IH; [assumption|]. exact (update_weights_fin _ _ _ _ H1 Hw E1).
Qed.

Lemma weights_as_fin (xs : list F) :
  Forall weight_ok xs ->
  exists ws, xs = map Fin ws /\ Forall (fun w => 1 <= w <= 18446744073709551616)%Q ws.
Proof.
  intros H. induction H as [|x xs [w [-> Hw]] _ [ws [-> Hws]]].
  - exists []. split; [reflexivity|constructor].
  - exists (w :: ws). split; [reflexivity|constructor; assumption].
Qed.

(** For a table with 1 to [2^20] columns whose cell texts are shorter than
    [2^52] characters, the percentages written to the grid are finite and
    positive, one per column, and sum to 100 up to the rounding bound of
    the floats. *)
Theorem col_widths_sum_100 (rows : list Row) (mn mx : Q) :
  let col_count := fold_right Nat.max 0%nat (map (@length Cell) rows) in
  col_count <> 0%nat -> Z.of_nat col_count <= 1048576 ->
  Forall (Forall (fun c => Z.of_nat (length (cell_text c)) < 2 ^ 52)) rows ->
  (1 # 18446744073709551616 <= mn)%Q -> (mn <= mx)%Q -> (mx <= 18446744073709551616)%Q ->
  exists rs, _set_table_col_widths_by_content rows (Fin mn) (Fin mx) = Ok (Some (map Fin rs))
     /\ length rs = col_count
     /\ Forall (fun r => 0 < r)%Q rs
     /\ (100 * qpow (1 - unit_roundoff) 2 / qpow (1 + unit_roundoff) col_count <= sumQ rs
         <= 100 * qpow (1 + unit_roundoff) 2 / qpow (1 - unit_roundoff) col_count)%Q.
Proof.
  cbv zeta. intros Hc Hn Hrows Hmn Hmm Hmx.
  destruct rows as [|r rs]; [cbn in Hc; congruence|].
  assert (Hpm : py_max (map (@length Cell) (r :: rs))
                = Ok (fold_right Nat.max 0%nat (map (@length Cell) (r :: rs)))).
  { unfold py_max. cbn [map]. rewrite fold_max_right. reflexivity. }
  unfold _set_table_col_widths_by_content. rewrite Hpm.
  destruct (fold_right Nat.max 0%nat (map (@length Cell) (r :: rs))) as [|n] eqn:Ec;
    [congruence|].
  destruct (weights_of_rows_ok (r :: rs) (repeat (Fin 1) (S n))) as (xs & Hxs & Hl).
  { rewrite repeat_length, <- Ec. apply rows_le_max. }
  rewrite Hxs. rewrite repeat_length in Hl.
  assert (Hok : Forall weight_ok xs).
  { apply (weights_of_rows_fin _ (repeat (Fin 1) (S n)) xs Hrows); [|exact Hxs].
    apply Forall_forall. intros x Hx. apply repeat_spec in Hx. subst x.
    exists 1%Q. split; [reflexivity|lra]. }
  destruct (weights_as_fin xs Hok) as [ws [-> Hws]].
  rewrite length_map in Hl. rewrite <- Hl in Hn |- *.
  assert (Hne : ws <> []) by (intro E; subst ws; discriminate).
  destruct (clamped_pcts_fin ws mn mx Hne Hn Hws Hmm) as [cs [Hcs [Hlen Hband]]].
  assert (Hne' : cs <> []) by (intro E; subst cs; destruct ws; [congruence|discriminate]).
  rewrite <- Hlen in Hn |- *.
  destruct (renorm_rel cs mn mx Hne' Hn Hband Hmn Hmx) as [rs' [Hrs [Hpos Hsum]]].
  exists rs'. unfold _normalize_pcts. cbv zeta. rewrite Hcs, Hrs.
  split; [reflexivity|]. split; [|split; assumption].
  apply (f_equal (@length F)) in Hrs. rewrite !length_map in Hrs. exact (eq_sym Hrs).
Qed.

Lemma col_widths_sum_100_witness :
  exists rs, _set_table_col_widths_by_content
               [[[u "序号"]; [u "项目名称"]]; [[u "1"]; [u "年度预算执行情况"]]] (Fin 8) (Fin 45)
             = Ok (Some (map Fin rs))
     /\ length rs = fold_right Nat.max 0%nat
                      (map (@length Cell) [[[u "序号"]; [u "项目名称"]]; [[u "1"]; [u "年度预算执行情况"]]])
     /\ Forall (fun r => 0 < r)%Q rs
     /\ (100 * qpow (1 - unit_roundoff) 2 / qpow (1 + unit_roundoff)
                (fold_right Nat.max 0%nat
                   (map (@length Cell) [[[u "序号"]; [u "项目名称"]]; [[u "1"]; [u "年度预算执行情况"]]]))
         <= sumQ rs
         <= 100 * qpow (1 + unit_roundoff) 2 / qpow (1 - unit_roundoff)
                (fold_right Nat.max 0%nat
                   (map (@length Cell) [[[u "序号"]; [u "项目名称"]]; [[u "1"]; [u "年度预算执行情况"]]])))%Q.
Proof.
  apply (col_widths_sum_100 [[[u "序号"]; [u "项目名称"]]; [[u "1"]; [u "年度预算执行情况"]]] 8 45);
    [vm_compute; discriminate|vm_compute; discriminate
    |repeat constructor; vm_compute; reflexivity
    |vm_compute; discriminate|vm_compute; discriminate|vm_compute; discriminate].
Defined.
